(** * Spotify playlist analysis: the functions of [Functions.py]

    A shallow embedding of [search_playlists], [get_playlist_details] and
    [get_track_genres], and the properties of the design document that
    concern them.

    Values exchanged with the catalogue are parsed JSON, so the embedding
    works on a JSON datatype and gives the Python operations the code
    applies to such values ([in], [.get], [x[k]], truthiness, [==], [<])
    their dynamic behaviour, including the exceptions they raise on values
    of the wrong shape.  Network calls are oracles over an abstract world
    state, threaded explicitly; every call is also recorded in a trace.

    Scope of the model: JSON numbers are integers, and playlist and track
    text is ASCII, one [ascii] per character.  [Re] and [Str] are the
    regular expression and [str.lower] on ASCII text; the properties whose
    statement depends on how a name is matched carry the hypothesis that
    the name is ASCII.  The text of an HTTP header has one [ascii] per
    code point below 256. *)

From Stdlib Require Import ZArith List Bool Ascii String Lia Permutation Sorted.
Import ListNotations.

Local Open Scope string_scope.
Local Open Scope Z_scope.

(** ** Parsed JSON values *)

#[warnings="-register-all"]
Inductive json : Type :=
| JNull
| JBool (b : bool)
| JNum (n : Z)
| JStr (s : string)
| JArr (items : list json)
| JObj (fields : list (string * json)).

(** A Python exception is the absence of a value. *)
Definition exn (A : Type) : Type := option A.

(** ** Text *)

Module Str.

(** [str.lower] on ASCII text. *)
Definition lower_char (c : ascii) : ascii :=
  let n := N_of_ascii c in
  if ((65 <=? n) && (n <=? 90))%N then ascii_of_N (n + 32) else c.

Fixpoint lower (s : string) : string :=
  match s with
  | EmptyString => EmptyString
  | String c r => String (lower_char c) (lower r)
  end.

(** [needle in hay] for two strings. *)
Fixpoint contains (needle hay : string) : bool :=
  String.prefix needle hay ||
  match hay with
  | EmptyString => false
  | String _ r => contains needle r
  end.

Definition head (s : string) : option ascii :=
  match s with
  | EmptyString => None
  | String c _ => Some c
  end.

(** [sep.join(parts)] *)
Fixpoint join (sep : string) (parts : list string) : string :=
  match parts with
  | [] => ""
  | [p] => p
  | p :: rest => p ++ sep ++ join sep rest
  end.

End Str.

(** ** The regular expression [\bterm\b] with [re.IGNORECASE]

    [term] is one of the literals of [time_periods]: letters only, no
    regular-expression operators, so the pattern is a word boundary, the
    literal compared without case, and a word boundary. *)

Module Re.

(** [\w] on ASCII: letters, digits and the underscore. *)
Definition is_word_char (c : ascii) : bool :=
  let n := N_of_ascii c in
  (((48 <=? n) && (n <=? 57)) || ((65 <=? n) && (n <=? 90)) ||
   ((97 <=? n) && (n <=? 122)) || (n =? 95))%N.

Definition is_word (c : option ascii) : bool :=
  match c with
  | Some c => is_word_char c
  | None => false
  end.

(** [\b] between the character before and the character after a position;
    the ends of the text count as non-word. *)
Definition boundary (before after : option ascii) : bool :=
  xorb (is_word before) (is_word after).

(** Consume the literal at the front of [s], ignoring case; gives the last
    character consumed and the rest of the text. *)
Fixpoint literal_ci (term s : string) (before : option ascii)
  : option (option ascii * string) :=
  match term with
  | EmptyString => Some (before, s)
  | String t term' =>
      match s with
      | EmptyString => None
      | String c s' =>
          if Ascii.eqb (Str.lower_char t) (Str.lower_char c)
          then literal_ci term' s' (Some c)
          else None
      end
  end.

Definition match_here (term : string) (before : option ascii) (s : string) : bool :=
  boundary before (Str.head s) &&
  match literal_ci term s before with
  | Some (last, rest) => boundary last (Str.head rest)
  | None => false
  end.

Fixpoint search_from (term : string) (before : option ascii) (s : string) : bool :=
  match_here term before s ||
  match s with
  | EmptyString => false
  | String c r => search_from term (Some c) r
  end.

(** [re.search(rf'\b{term}\b', s, re.IGNORECASE)] found a match. *)
Definition search_word (term s : string) : bool := search_from term None s.

End Re.

(** ** Python operations on parsed JSON *)

Module Py.

Fixpoint lookup (k : string) (fields : list (string * json)) : option json :=
  match fields with
  | [] => None
  | (k', v) :: rest => if String.eqb k k' then Some v else lookup k rest
  end.

(** [d[k] = v] on a dict: an existing key keeps its place. *)
Fixpoint set_item (k : string) (v : json) (fields : list (string * json))
  : list (string * json) :=
  match fields with
  | [] => [(k, v)]
  | (k', v') :: rest =>
      if String.eqb k k' then (k, v) :: rest else (k', v') :: set_item k v rest
  end.

(** [bool(v)] *)
Definition truthy (v : json) : bool :=
  match v with
  | JNull => false
  | JBool b => b
  | JNum n => negb (n =? 0)
  | JStr s => negb (String.eqb s "")
  | JArr l => match l with [] => false | _ => true end
  | JObj l => match l with [] => false | _ => true end
  end.

Definition Z_of_bool (b : bool) : Z := if b then 1 else 0.

(** The numeric value of an operand of [<]; [bool] is a subtype of [int].
    Any other operand against an [int] raises [TypeError]. *)
Definition as_number (v : json) : exn Z :=
  match v with
  | JNum n => Some n
  | JBool b => Some (Z_of_bool b)
  | _ => None
  end.

(** [a == b] *)
Fixpoint eq (a b : json) {struct a} : bool :=
  match a, b with
  | JNull, JNull => true
  | JBool x, JBool y => Bool.eqb x y
  | JBool x, JNum n => Z_of_bool x =? n
  | JNum n, JBool x => n =? Z_of_bool x
  | JNum n, JNum m => n =? m
  | JStr s, JStr t => String.eqb s t
  | JArr xs, JArr ys =>
      (fix all2 (xs ys : list json) : bool :=
         match xs, ys with
         | [], [] => true
         | x :: xs', y :: ys' => eq x y && all2 xs' ys'
         | _, _ => false
         end) xs ys
  | JObj kvs, JObj kws =>
      (List.length kvs =? List.length kws)%nat &&
      (fix all (kvs : list (string * json)) : bool :=
         match kvs with
         | [] => true
         | (k, v) :: rest =>
             match lookup k kws with
             | Some w => eq v w
             | None => false
             end && all rest
         end) kvs
  | _, _ => false
  end.

(** Lists and dicts are unhashable: using one as a set element or a dict
    key raises [TypeError]. *)
Definition hashable (v : json) : bool :=
  match v with
  | JArr _ | JObj _ => false
  | _ => true
  end.

(** [k in v] for a string [k]: key of a dict, element of a list, substring
    of a string; [TypeError] on anything else. *)
Definition contains (k : string) (v : json) : exn bool :=
  match v with
  | JObj fields => Some (match lookup k fields with Some _ => true | None => false end)
  | JArr items => Some (existsb (eq (JStr k)) items)
  | JStr s => Some (Str.contains k s)
  | _ => None
  end.

(** [v[k]] for a string [k]: [KeyError] on a dict without the key,
    [TypeError] on anything that is not a dict. *)
Definition getitem (v : json) (k : string) : exn json :=
  match v with
  | JObj fields => lookup k fields
  | _ => None
  end.

(** [v.get(k, default)]: [AttributeError] on anything that is not a dict. *)
Definition get (v : json) (k : string) (default : json) : exn json :=
  match v with
  | JObj fields =>
      Some (match lookup k fields with Some x => x | None => default end)
  | _ => None
  end.

(** The sequence [for x in v] runs over: the elements of a list, the keys
    of a dict, the characters of a string; [TypeError] otherwise. *)
Fixpoint chars (s : string) : list json :=
  match s with
  | EmptyString => []
  | String c r => JStr (String c EmptyString) :: chars r
  end.

Definition iterate (v : json) : exn (list json) :=
  match v with
  | JArr items => Some items
  | JObj fields => Some (map (fun kv => JStr (fst kv)) fields)
  | JStr s => Some (chars s)
  | _ => None
  end.

(** A Python set or dict keyed by hashable JSON values, in insertion
    order; membership is by [==]. *)
Definition set_mem (x : json) (s : list json) : bool := existsb (eq x) s.

Fixpoint dict_set {V : Type} (k : json) (v : V) (d : list (json * V))
  : list (json * V) :=
  match d with
  | [] => [(k, v)]
  | (k', v') :: rest =>
      if eq k' k then (k', v) :: rest else (k', v') :: dict_set k v rest
  end.

End Py.

(** ** [search_playlists]: query expansion and the filter rules *)

Definition time_periods : list string :=
  ["morning"; "afternoon"; "evening"; "night"].

Definition excluded_terms (query : string) : list string :=
  filter (fun term => negb (String.eqb (Str.lower term) (Str.lower query)))
         time_periods.

Definition search_variations (query : string) : list string :=
  [ query ++ " playlist";
    "*" ++ query ++ "*";
    query ++ " music";
    query ++ " vibes" ].

(** [any(re.search(rf'\b{term}\b', name, re.IGNORECASE) for term in excluded)] *)
Definition excluded_term_rule (excluded : list string) (name : string) : bool :=
  existsb (fun term => Re.search_word term name) excluded.

(** [playlist["tracks"].get("total", 0) < min_tracks] *)
Definition track_count_rule (playlist : json) (min_tracks : Z) : exn bool :=
  match Py.getitem playlist "tracks" with
  | None => None
  | Some tracks =>
      match Py.get tracks "total" (JNum 0) with
      | None => None
      | Some total =>
          match Py.as_number total with
          | None => None
          | Some n => Some (n <? min_tracks)
          end
      end
  end.

(** ["setlist" in playlist.get("name", "").lower()] on a name that is a string. *)
Definition setlist_rule (name : string) : bool :=
  Str.contains "setlist" (Str.lower name).

(** ** The [requests] library and the world it talks to *)

Record response : Type := {
  status_code : Z;
  (** [response.headers.get("Retry-After")], [None] when the header is absent *)
  retry_after_header : option string;
  (** [response.json()], which raises on a body that is not JSON *)
  json_body : exn json
}.

(** One [requests.get] per endpoint.  A call may raise (no connection) and
    changes the world, so that the same request can be answered differently
    the next time.  The bearer token is the same in every call and is left
    out. *)
Class Requests (World : Type) : Type := {
  (** GET /v1/search with [q], [type=playlist] and [limit] *)
  get_search : string -> Z -> World -> exn response * World;
  (** GET /v1/playlists/{playlist_id} *)
  get_playlist : json -> World -> exn response * World;
  (** GET /v1/playlists/{playlist_id}/tracks *)
  get_tracks : string -> World -> exn response * World;
  (** GET /v1/artists with [ids] *)
  get_artists : string -> World -> exn response * World
}.

(** [response.raise_for_status()] raises on a 4xx or 5xx status. *)
Definition raise_for_status (r : response) : exn unit :=
  if (400 <=? status_code r) && (status_code r <? 600) then None else Some tt.

Record artist_ref : Type := {
  ref_name : json;
  ref_id : json;
  ref_track : json
}.

(** What the program did to the outside, in order. *)
Inductive event : Type :=
| Search (q : string)
| Details (playlist_id : json) (result : exn json)
| Tracks (playlist_id : string)
| Artists (ids : string)
| Sleep (seconds : Z).

(** ** One step of a loop body: go on, [continue], or raise *)

Inductive step (A : Type) : Type :=
| Next (a : A)
| Continue
| Raised.
Arguments Next {A} a.
Arguments Continue {A}.
Arguments Raised {A}.

Definition step_bind {A B : Type} (m : step A) (k : A -> step B) : step B :=
  match m with
  | Next a => k a
  | Continue => Continue
  | Raised => Raised
  end.

Definition try {A : Type} (m : exn A) : step A :=
  match m with
  | Some a => Next a
  | None => Raised
  end.

Definition continue_if (b : bool) : step unit :=
  if b then Continue else Next tt.

Declare Scope step_scope.
Delimit Scope step_scope with step.
Notation "x <- m ;; k" := (step_bind m (fun x => k))
  (at level 61, m at next level, right associativity) : step_scope.
Notation "m ;;; k" := (step_bind m (fun _ => k))
  (at level 61, right associativity) : step_scope.

(** ** [search_playlists]: the filter of one raw playlist *)

(** [any(re.search(...) for term in excluded)]: the first search raises
    [TypeError] when the name is not a string. *)
Definition any_excluded (excluded : list string) (name : json) : exn bool :=
  match excluded, name with
  | [], _ => Some false
  | _, JStr s => Some (excluded_term_rule excluded s)
  | _, _ => None
  end.

(** ["setlist" in playlist.get("name", "").lower()] *)
Definition is_setlist (playlist : json) : exn bool :=
  match Py.get playlist "name" (JStr "") with
  | Some (JStr s) => Some (setlist_rule s)
  | _ => None
  end.

(** Lines 83 to 107: the checks made before the details are fetched.  A
    playlist that passes them all yields its id. *)
Definition candidate (excluded : list string) (min_tracks : Z) (playlist : json)
  : step json :=
  (continue_if (negb (Py.truthy playlist)) ;;;
   has_name <- try (Py.contains "name" playlist) ;;
   continue_if (negb has_name) ;;;
   has_tracks <- try (Py.contains "tracks" playlist) ;;
   continue_if (negb has_tracks) ;;;
   owner <- try (Py.get playlist "owner" (JObj [])) ;;
   owner_id <- try (Py.get owner "id" JNull) ;;
   continue_if (Py.eq owner_id (JStr "spotify")) ;;;
   name <- try (Py.getitem playlist "name") ;;
   excluded_hit <- try (any_excluded excluded name) ;;
   continue_if excluded_hit ;;;
   too_short <- try (track_count_rule playlist min_tracks) ;;
   continue_if too_short ;;;
   setlist <- try (is_setlist playlist) ;;
   continue_if setlist ;;;
   try (Py.getitem playlist "id"))%step.

(** Lines 112 to 115 on the value [get_playlist_details] returned: the
    follower count to attach, when there is one at or above the minimum. *)
Definition enrich (details : json) (min_followers : Z) : step json :=
  if negb (Py.truthy details) then Continue else
  (has_followers <- try (Py.contains "followers" details) ;;
   continue_if (negb has_followers) ;;;
   followers_obj <- try (Py.getitem details "followers") ;;
   followers <- try (Py.getitem followers_obj "total") ;;
   n <- try (Py.as_number followers) ;;
   continue_if (n <? min_followers) ;;;
   Next followers)%step.

(** [playlist["followers"] = followers] *)
Definition with_followers (playlist followers : json) : json :=
  match playlist with
  | JObj fields => JObj (Py.set_item "followers" followers fields)
  | other => other
  end.

(** ** [sorted(valid_playlists, key=..., reverse=True)]

    [sorted] computes the key of every element, then orders the elements by
    key; it is stable, and stays so with [reverse=True]. *)

Definition followers_key (playlist : json) : exn Z :=
  match Py.getitem playlist "followers" with
  | Some f => Py.as_number f
  | None => None
  end.

Fixpoint decorate (l : list json) : exn (list (Z * json)) :=
  match l with
  | [] => Some []
  | p :: rest =>
      match followers_key p, decorate rest with
      | Some k, Some r => Some ((k, p) :: r)
      | _, _ => None
      end
  end.

Fixpoint insert_desc {A : Type} (x : Z * A) (l : list (Z * A)) : list (Z * A) :=
  match l with
  | [] => [x]
  | y :: rest =>
      if fst x <? fst y then y :: insert_desc x rest else x :: y :: rest
  end.

Fixpoint sort_desc {A : Type} (l : list (Z * A)) : list (Z * A) :=
  match l with
  | [] => []
  | x :: rest => insert_desc x (sort_desc rest)
  end.

Definition sorted_by_followers (valid : list json) : exn (list json) :=
  match decorate valid with
  | Some d => Some (map snd (sort_desc d))
  | None => None
  end.

(** ** Loops that an uncaught exception leaves early *)

Inductive flow (S : Type) : Type :=
| Normal (s : S)
| Abort (s : S).
Arguments Normal {S} s.
Arguments Abort {S} s.

Definition state_of {S : Type} (f : flow S) : S :=
  match f with
  | Normal s => s
  | Abort s => s
  end.

Fixpoint for_each {S A : Type} (body : S -> A -> flow S) (l : list A) (s : S)
  : flow S :=
  match l with
  | [] => Normal s
  | x :: rest =>
      match body s x with
      | Normal s' => for_each body rest s'
      | Abort s' => Abort s'
      end
  end.

Definition exn_bind {A B : Type} (m : exn A) (k : A -> exn B) : exn B :=
  match m with
  | Some a => k a
  | None => None
  end.

Declare Scope exn_scope.
Delimit Scope exn_scope with exn.
Notation "x <- m ;; k" := (exn_bind m (fun x => k))
  (at level 61, m at next level, right associativity) : exn_scope.

Fixpoint map_exn {A B : Type} (f : A -> exn B) (l : list A) : exn (list B) :=
  match l with
  | [] => Some []
  | x :: rest =>
      match f x, map_exn f rest with
      | Some y, Some ys => Some (y :: ys)
      | _, _ => None
      end
  end.

(** [playlist['tracks']['total']] *)
Definition tracks_total (playlist : json) : exn json :=
  (tracks <- Py.getitem playlist "tracks" ;;
   Py.getitem tracks "total")%exn.

(** ** [search_playlists] and [get_playlist_details] *)

Section SearchPlaylists.

Context {World : Type} {requests : Requests World}.

Record search_state : Type := {
  valid_playlists : list json;
  seen_playlist_ids : list json;
  world : World;
  trace : list event
}.

(** [get_playlist_details]: the body of a 200 response, [None] otherwise. *)
Definition get_playlist_details (playlist_id : json) (w : World)
  : exn json * World :=
  match get_playlist playlist_id w with
  | (Some r, w') =>
      if status_code r =? 200 then (json_body r, w') else (Some JNull, w')
  | (None, w') => (None, w')
  end.

(** The body of the inner loop, lines 81 to 121.  Whatever is raised
    inside is caught, so the playlist is left out and the loop goes on. *)
Definition process_playlist (excluded : list string) (min_tracks min_followers : Z)
           (st : search_state) (playlist : json) : search_state :=
  match candidate excluded min_tracks playlist with
  | Next playlist_id =>
      if negb (Py.hashable playlist_id) then st
      else if Py.set_mem playlist_id (seen_playlist_ids st) then st
      else
        let (details, w) := get_playlist_details playlist_id (world st) in
        let fetched :=
          {| valid_playlists := valid_playlists st;
             seen_playlist_ids := seen_playlist_ids st;
             world := w;
             trace := trace st ++ [Details playlist_id details] |} in
        match details with
        | None => fetched
        | Some d =>
            match enrich d min_followers with
            | Next followers =>
                {| valid_playlists :=
                     valid_playlists st ++ [with_followers playlist followers];
                   seen_playlist_ids := seen_playlist_ids st ++ [playlist_id];
                   world := w;
                   trace := trace st ++ [Details playlist_id details] |}
            | _ => fetched
            end
        end
  | _ => st
  end.

(** Lines 76 to 80: the raw playlists of one search response. *)
Definition raw_items (playlists : json) : step (list json) :=
  (has_playlists <- try (Py.contains "playlists" playlists) ;;
   continue_if (negb has_playlists) ;;;
   found <- try (Py.getitem playlists "playlists") ;;
   has_items <- try (Py.contains "items" found) ;;
   continue_if (negb has_items) ;;;
   items <- try (Py.getitem found "items") ;;
   try (Py.iterate items))%step.

(** The body of the outer loop, lines 64 to 121, for one search variant. *)
Definition search_pass (limit min_tracks min_followers : Z) (excluded : list string)
           (st : search_state) (search_query : string) : flow search_state :=
  let (resp, w) := get_search search_query limit (world st) in
  let searched :=
    {| valid_playlists := valid_playlists st;
       seen_playlist_ids := seen_playlist_ids st;
       world := w;
       trace := trace st ++ [Search search_query] |} in
  match resp with
  | None => Abort searched
  | Some r =>
      match raise_for_status r, json_body r with
      | Some _, Some playlists =>
          match raw_items playlists with
          | Next items =>
              Normal (fold_left (process_playlist excluded min_tracks min_followers)
                                items searched)
          | Continue => Normal searched
          | Raised => Abort searched
          end
      | _, _ => Abort searched
      end
  end.

(** The line printed for a ranked playlist, line 129: it reads
    [playlist['name']], [playlist.get('followers', 0)] and
    [playlist['tracks']['total']]. *)
Definition print_line (playlist : json) : exn unit :=
  (_ <- Py.getitem playlist "name" ;;
   _ <- Py.get playlist "followers" (JNum 0) ;;
   _ <- tracks_total playlist ;;
   Some tt)%exn.

(** Lines 123 to 133. *)
Definition rank (valid : list json) : exn (list json) :=
  (sorted_playlists <- sorted_by_followers valid ;;
   _ <- map_exn print_line sorted_playlists ;;
   map_exn (fun playlist => Py.getitem playlist "id") sorted_playlists)%exn.

Definition initial_state (w : World) : search_state :=
  {| valid_playlists := []; seen_playlist_ids := []; world := w; trace := [] |}.

Definition search_loop (query : string) (limit min_tracks min_followers : Z)
           (w : World) : flow search_state :=
  for_each (search_pass limit min_tracks min_followers (excluded_terms query))
           (search_variations query) (initial_state w).

(** The list of playlist ids returned, or [None] when the call raises,
    with the state the loops ended in. *)
Definition search_playlists (query : string) (limit min_tracks min_followers : Z)
           (w : World) : exn (list json) * search_state :=
  match search_loop query limit min_tracks min_followers w with
  | Normal st => (rank (valid_playlists st), st)
  | Abort st => (None, st)
  end.

End SearchPlaylists.

Arguments search_state World : clear implicits.

(** ** [int(text)]

    [int] on a string: optional white space around an optional sign and
    decimal digits, where single underscores may separate digits;
    [ValueError] on anything else.  The text is that of an HTTP header, one
    character per code point below 256; the white space [int] skips there
    is tab to carriage return (9 to 13), the space (32), U+0085 and U+00A0.
    (The limit [int] puts on the number of digits is not modelled.) *)

Module Int.

Definition is_space (c : ascii) : bool :=
  let n := N_of_ascii c in
  (((9 <=? n) && (n <=? 13)) || (n =? 32) || (n =? 133) || (n =? 160))%N.

Definition is_digit (c : ascii) : bool :=
  let n := N_of_ascii c in ((48 <=? n) && (n <=? 57))%N.

Definition digit (c : ascii) : Z := Z.of_N (N_of_ascii c) - 48.

Fixpoint lstrip (s : string) : string :=
  match s with
  | EmptyString => EmptyString
  | String c r => if is_space c then lstrip r else s
  end.

Fixpoint all_space (s : string) : bool :=
  match s with
  | EmptyString => true
  | String c r => is_space c && all_space r
  end.

Fixpoint digits (s : string) (acc : Z) (after_digit : bool) : exn Z :=
  match s with
  | EmptyString => if after_digit then Some acc else None
  | String c r =>
      if is_digit c then digits r (10 * acc + digit c) true
      else if Ascii.eqb c "_" then
        match after_digit, r with
        | true, String d _ => if is_digit d then digits r acc false else None
        | _, _ => None
        end
      else if is_space c && after_digit && all_space r then Some acc
      else None
  end.

Definition of_str (s : string) : exn Z :=
  match lstrip s with
  | String "+" r => digits r 0 false
  | String "-" r => option_map Z.opp (digits r 0 false)
  | r => digits r 0 false
  end.

End Int.

(** ** [get_playlist_tracks] and [get_track_genres] *)

(** [range(0, stop, step)] *)
Definition range_by (stop step : nat) : list nat :=
  map (fun k => (k * step)%nat) (seq 0 ((stop + (step - 1)) / step)).

(** [l[i:j]] *)
Definition slice {A : Type} (l : list A) (i j : nat) : list A :=
  firstn (j - i) (skipn i l).

(** The batches the loop of line 209 goes through:
    [artist_ids[i:i + 50]] for [i] in [range(0, len(artist_ids), 50)]. *)
Definition batches (artist_ids : list artist_ref) : list (list artist_ref) :=
  map (fun i => slice artist_ids i (i + 50))
      (range_by (List.length artist_ids) 50).

(** [playlist_tracks["items"][:200]], as the sequence the loop runs over. *)
Definition first_200 (items : json) : exn (list json) :=
  match items with
  | JArr l => Some (firstn 200 l)
  | JStr s => Some (firstn 200 (Py.chars s))
  | _ => None
  end.

(** The comprehension of lines 201 to 205. *)
Fixpoint track_artists (track_name : json) (artists : list json)
  : exn (list artist_ref) :=
  match artists with
  | [] => Some []
  | artist :: rest =>
      (has_id <- Py.contains "id" artist ;;
       this <- (if has_id : bool then
                  name <- Py.getitem artist "name" ;;
                  id <- Py.getitem artist "id" ;;
                  Some [{| ref_name := name; ref_id := id; ref_track := track_name |}]
                else Some []) ;;
       others <- track_artists track_name rest ;;
       Some (this ++ others)%list)%exn
  end.

(** The body of the loop of lines 195 to 206: the entries one item adds to
    [artist_ids]. *)
Definition item_artists (item : json) : step (list artist_ref) :=
  (track <- try (Py.get item "track" JNull) ;;
   continue_if (negb (Py.truthy track)) ;;;
   track_name <- try (Py.get track "name" JNull) ;;
   artists <- try (Py.get track "artists" (JArr [])) ;;
   artist_list <- try (Py.iterate artists) ;;
   try (track_artists track_name artist_list))%step.

Fixpoint collect_artists (items : list json) : exn (list artist_ref) :=
  match items with
  | [] => Some []
  | item :: rest =>
      match item_artists item with
      | Next refs => option_map (app refs) (collect_artists rest)
      | Continue => collect_artists rest
      | Raised => None
      end
  end.

(** Lines 193 to 206: [artist_ids] once the loop over the items is done. *)
Definition playlist_artists (playlist_tracks : json) : exn (list artist_ref) :=
  (items <- Py.getitem playlist_tracks "items" ;;
   shown <- first_200 items ;;
   collect_artists shown)%exn.

(** [",".join([artist["id"] for artist in batch if artist["id"]])]: [join]
    raises [TypeError] on an element that is not a string. *)
Definition artist_id_str (batch : list artist_ref) : exn string :=
  option_map (Str.join ",")
    (map_exn (fun id => match id with JStr s => Some s | _ => None end)
             (filter Py.truthy (map ref_id batch))).

(** The loop of lines 233 to 235 for one artist of the response. *)
Fixpoint assign_genres (artist_id artist_genres : json) (batch : list artist_ref)
         (genres : list (json * json)) : exn (list (json * json)) :=
  match batch with
  | [] => Some genres
  | artist_info :: rest =>
      if Py.eq (ref_id artist_info) artist_id then
        if Py.hashable (ref_track artist_info)
        then assign_genres artist_id artist_genres rest
               (Py.dict_set (ref_track artist_info) artist_genres genres)
        else None
      else assign_genres artist_id artist_genres rest genres
  end.

(** The loop of lines 226 to 235. *)
Fixpoint resolve_artists (data : list json) (batch : list artist_ref)
         (genres : list (json * json)) : exn (list (json * json)) :=
  match data with
  | [] => Some genres
  | JNull :: rest => resolve_artists rest batch genres
  | artist :: rest =>
      (_ <- Py.get artist "name" (JStr "Unknown Artist") ;;
       artist_genres <- Py.get artist "genres" (JArr []) ;;
       artist_id <- Py.get artist "id" JNull ;;
       genres' <- assign_genres artist_id artist_genres batch genres ;;
       resolve_artists rest batch genres')%exn
  end.

(** [int(response.headers.get("Retry-After", 60))] *)
Definition retry_after (r : response) : exn Z :=
  match retry_after_header r with
  | None => Some 60
  | Some text => Int.of_str text
  end.

Section GetTrackGenres.

Context {World : Type} {requests : Requests World}.

Record genre_state : Type := {
  genres : list (json * json);
  genre_world : World;
  genre_trace : list event
}.

Definition get_playlist_tracks (playlist_id : string) (w : World)
  : exn json * World :=
  match get_tracks playlist_id w with
  | (Some r, w') =>
      (match raise_for_status r with
       | Some _ => json_body r
       | None => None
       end, w')
  | (None, w') => (None, w')
  end.

(** The body of the loop of lines 209 to 235 for one batch. *)
Definition process_batch (st : genre_state) (batch : list artist_ref)
  : flow genre_state :=
  match artist_id_str batch with
  | None => Abort st
  | Some ids =>
      let (resp, w) := get_artists ids (genre_world st) in
      let called :=
        {| genres := genres st;
           genre_world := w;
           genre_trace := genre_trace st ++ [Artists ids] |} in
      match resp with
      | None => Abort called
      | Some r =>
          if status_code r =? 429 then
            match retry_after r with
            | None => Abort called
            | Some seconds =>
                if seconds <? 0 then Abort called
                else Normal {| genres := genres st;
                               genre_world := w;
                               genre_trace :=
                                 genre_trace st ++ [Artists ids; Sleep seconds] |}
            end
          else if status_code r =? 200 then
            match (body <- json_body r ;;
                   data <- Py.getitem body "artists" ;;
                   artists <- Py.iterate data ;;
                   resolve_artists artists batch (genres st))%exn with
            | None => Abort called
            | Some genres' =>
                Normal {| genres := genres';
                          genre_world := w;
                          genre_trace := genre_trace st ++ [Artists ids] |}
            end
          else Normal called
      end
  end.

(** The genre map returned, or [None] when the call raises, with the
    state it ended in. *)
Definition get_track_genres (playlist_id : string) (w : World)
  : exn (list (json * json)) * genre_state :=
  let (fetched, w1) := get_playlist_tracks playlist_id w in
  let st := {| genres := []; genre_world := w1;
               genre_trace := [Tracks playlist_id] |} in
  match fetched with
  | None => (None, st)
  | Some playlist_tracks =>
      if negb (Py.truthy playlist_tracks) then (Some [], st)
      else
        match Py.contains "items" playlist_tracks with
        | None => (None, st)
        | Some false => (Some [], st)
        | Some true =>
            match playlist_artists playlist_tracks with
            | None => (None, st)
            | Some artist_ids =>
                match for_each process_batch (batches artist_ids) st with
                | Normal st' => (Some (genres st'), st')
                | Abort st' => (None, st')
                end
            end
        end
  end.

End GetTrackGenres.

Arguments genre_state World : clear implicits.

(** ** Catalogues to run the functions on *)

Module Fixture.

(** A catalogue answers each request from a table; only the answers to
    the bulk artist lookup depend on how many such lookups came before. *)
Record catalog : Type := {
  on_search : string -> exn response;
  on_playlist : json -> exn response;
  on_tracks : string -> exn response;
  on_artists : nat -> string -> exn response
}.

Definition serve (c : catalog) : Requests nat := {|
  get_search q _ w := (on_search c q, w);
  get_playlist id w := (on_playlist c id, w);
  get_tracks id w := (on_tracks c id, w);
  get_artists ids w := (on_artists c w ids, S w)
|}.

Definition ok (body : json) : exn response :=
  Some {| status_code := 200; retry_after_header := None; json_body := Some body |}.

Definition rate_limited (header : option string) : exn response :=
  Some {| status_code := 429; retry_after_header := header; json_body := None |}.

Definition not_found : exn response :=
  Some {| status_code := 404; retry_after_header := None; json_body := None |}.

Definition playlist (id name owner : string) (total : Z) : json :=
  JObj [("id", JStr id); ("name", JStr name);
        ("owner", JObj [("id", JStr owner)]);
        ("tracks", JObj [("total", JNum total)])].

Definition search_result (items : list json) : json :=
  JObj [("playlists", JObj [("items", JArr items)])].

Definition followers (n : Z) : json :=
  JObj [("followers", JObj [("total", JNum n)])].

Definition artist (id name : string) : json :=
  JObj [("id", JStr id); ("name", JStr name)].

Definition artist_genres (id name : string) (gs : list string) : json :=
  JObj [("id", JStr id); ("name", JStr name); ("genres", JArr (map JStr gs))].

Definition track (name : string) (artists : list json) : json :=
  JObj [("track", JObj [("name", JStr name); ("artists", JArr artists)])].

Definition track_list (items : list json) : json :=
  JObj [("items", JArr items)].

Fixpoint unary (k : nat) : string :=
  match k with
  | O => "a"
  | S k' => String "a" (unary k')
  end.

(** [n] artist references with distinct ids. *)
Definition many_refs (n : nat) : list artist_ref :=
  map (fun k => {| ref_name := JStr "x"; ref_id := JStr (unary k);
                   ref_track := JStr "Anthem" |}) (seq 0 n).

(** A track list of one track by [n] artists with distinct ids; every
    bulk lookup is answered with no artist at all. *)
Definition many_artists (n : nat) : catalog := {|
  on_search _ := not_found;
  on_playlist _ := not_found;
  on_tracks _ :=
    ok (track_list [track "Anthem" (map (fun k => artist (unary k) "x") (seq 0 n))]);
  on_artists _ _ := ok (JObj [("artists", JArr [])])
|}.

Definition nameless_track (artists : list json) : json :=
  JObj [("track", JObj [("id", JStr "t"); ("artists", JArr artists)])].

(** A playlist already accepted, with its follower count attached. *)
Definition ranked (id : string) (n : Z) : json :=
  with_followers (playlist id "Sunrise" "ann" 20) (JNum n).

(** Every search variant finds the one playlist "p1", which has
    [n] followers. *)
Definition one_playlist (n : Z) : catalog := {|
  on_search _ := ok (search_result [playlist "p1" "Sunrise" "ann" 20]);
  on_playlist _ := ok (followers n);
  on_tracks _ := not_found;
  on_artists _ _ := not_found
|}.

(** One track by one artist; the first bulk lookup is answered 429, with
    the given [Retry-After] header, every later one 200 with the genres. *)
Definition throttled_once (header : option string) : catalog := {|
  on_search _ := not_found;
  on_playlist _ := not_found;
  on_tracks _ := ok (track_list [track "Song" [artist "a1" "Ann"]]);
  on_artists n _ :=
    match n with
    | O => rate_limited header
    | S _ => ok (JObj [("artists", JArr [artist_genres "a1" "Ann" ["rock"]])])
    end
|}.

(** Two tracks without a name, by different artists. *)
Definition nameless_pair : catalog := {|
  on_search _ := not_found;
  on_playlist _ := not_found;
  on_tracks _ :=
    ok (track_list [nameless_track [artist "a1" "Ann"];
                    nameless_track [artist "a2" "Bob"]]);
  on_artists _ _ :=
    ok (JObj [("artists", JArr [artist_genres "a1" "Ann" ["rock"];
                                artist_genres "a2" "Bob" ["jazz"]])])
|}.

(** The track list is answered with [body]; there is nothing else. *)
Definition track_response (body : exn response) : catalog := {|
  on_search _ := not_found;
  on_playlist _ := not_found;
  on_tracks _ := body;
  on_artists _ _ := not_found
|}.

End Fixture.

(** ** Vocabulary of the properties *)

(** Keys never increase along a decorated list. *)
Definition descending {A : Type} : list (Z * A) -> Prop :=
  StronglySorted (fun a b => fst b <= fst a).

(** The follower count a playlist carries is [k]. *)
Definition has_followers (k : Z) (playlist : json) : bool :=
  match followers_key playlist with
  | Some n => n =? k
  | None => false
  end.

(** A decorated entry carries the follower count of its playlist. *)
Definition keyed (e : Z * json) : Prop := followers_key (snd e) = Some (fst e).

(** [playlist["id"]], for a playlist that has one. *)
Definition id_of (playlist : json) : json :=
  match Py.getitem playlist "id" with
  | Some id => id
  | None => JNull
  end.

(** [details["followers"]["total"]] *)
Definition fetched_followers (details : json) : exn json :=
  (found <- Py.getitem details "followers" ;;
   Py.getitem found "total")%exn.

(** The value [get_playlist_details] returned leads to acceptance. *)
Definition accepted (min_followers : Z) (result : exn json) : bool :=
  match result with
  | Some details =>
      match enrich details min_followers with
      | Next _ => true
      | _ => false
      end
  | None => false
  end.

(** The detail fetches made for a playlist id. *)
Definition is_fetch_of (playlist_id : json) (e : event) : bool :=
  match e with
  | Details id _ => Py.eq id playlist_id
  | _ => false
  end.

Definition fetch_count (playlist_id : json) (t : list event) : nat :=
  List.length (filter (is_fetch_of playlist_id) t).

(** A playlist of [valid_playlists]: it has an id and a name, the
    track-count rule let it through, and the follower count it carries is
    the one a detail fetch for its id returned, at or above the minimum. *)
Definition accepted_record (min_tracks min_followers : Z) (t : list event)
           (playlist : json) : Prop :=
  exists playlist_id followers details,
    Py.getitem playlist "id" = Some playlist_id
    /\ track_count_rule playlist min_tracks = Some false
    /\ Py.getitem playlist "followers" = Some followers
    /\ In (Details playlist_id (Some details)) t
    /\ enrich details min_followers = Next followers.

(** After a fetch that led to acceptance, the id is not fetched again. *)
Definition refetch_free (min_followers : Z) (t : list event) : Prop :=
  forall t1 t2 playlist_id details,
    t = (t1 ++ Details playlist_id (Some details) :: t2)%list ->
    accepted min_followers (Some details) = true ->
    forall id' result, In (Details id' result) t2 -> Py.eq id' playlist_id = false.

(** What holds of the state of [search_playlists] all along. *)
Record search_inv {World : Type} (min_tracks min_followers : Z)
       (st : search_state World) : Prop := {
  inv_ids : map id_of (valid_playlists st) = seen_playlist_ids st;
  inv_nodup : NoDup (seen_playlist_ids st);
  inv_records :
    Forall (accepted_record min_tracks min_followers (trace st)) (valid_playlists st);
  inv_seen :
    forall playlist_id details,
      In (Details playlist_id (Some details)) (trace st) ->
      accepted min_followers (Some details) = true ->
      In playlist_id (seen_playlist_ids st);
  inv_refetch : refetch_free min_followers (trace st)
}.

(** Consecutive pieces of [size] elements, as [batches] cuts them. *)
Definition chunks {A : Type} (size : nat) (l : list A) : list (list A) :=
  map (fun i => slice l i (i + size)) (range_by (List.length l) size).

(** The bulk artist lookups of a trace, by their [ids] parameter. *)
Fixpoint artist_calls (t : list event) : list string :=
  match t with
  | [] => []
  | Artists ids :: rest => ids :: artist_calls rest
  | _ :: rest => artist_calls rest
  end.

(** ** Vocabulary of further properties *)

(** [playlist.get("owner", {}).get("id") == "spotify"] *)
Definition owned_by_spotify (playlist : json) : exn bool :=
  (owner <- Py.get playlist "owner" (JObj []) ;;
   owner_id <- Py.get owner "id" JNull ;;
   Some (Py.eq owner_id (JStr "spotify")))%exn.

(** A record of [valid_playlists] is a raw playlist that passed the checks
    made before enrichment, with a follower count attached. *)
Definition made_from (excluded : list string) (min_tracks : Z) (record : json)
  : Prop :=
  exists raw playlist_id followers,
    candidate excluded min_tracks raw = Next playlist_id
    /\ record = with_followers raw followers.

(** The search requests of a trace, by their query. *)
Fixpoint search_events (t : list event) : list string :=
  match t with
  | [] => []
  | Search q :: rest => q :: search_events rest
  | _ :: rest => search_events rest
  end.

(** The detail fetches of a trace that led to acceptance. *)
Definition is_accepting (min_followers : Z) (e : event) : bool :=
  match e with
  | Details _ result => accepted min_followers result
  | _ => false
  end.

Definition accepting_fetches (min_followers : Z) (t : list event) : nat :=
  List.length (filter (is_accepting min_followers) t).

(** Where the records and the detail fetches of [search_playlists] come
    from. *)
Record search_origin {World : Type} (excluded : list string)
       (min_tracks min_followers : Z) (st : search_state World) : Prop := {
  origin_records : Forall (made_from excluded min_tracks) (valid_playlists st);
  origin_fetches :
    forall playlist_id result,
      In (Details playlist_id result) (trace st) ->
      exists raw, candidate excluded min_tracks raw = Next playlist_id;
  origin_count :
    List.length (valid_playlists st) = accepting_fetches min_followers (trace st)
}.

(** The answer to a search request makes [search_playlists] raise: no
    answer, a 4xx or 5xx status, a body that is not JSON, or one of a shape
    lines 77 and 80 cannot read. *)
Definition search_failed (resp : exn response) : bool :=
  match resp with
  | None => true
  | Some r =>
      match raise_for_status r, json_body r with
      | Some _, Some playlists =>
          match raw_items playlists with
          | Raised => true
          | _ => false
          end
      | _, _ => true
      end
  end.

Fixpoint last_char (s : string) : option ascii :=
  match s with
  | EmptyString => None
  | String c EmptyString => Some c
  | String _ r => last_char r
  end.

(** The text has ASCII characters only.  On such text [\w], [\b],
    [re.IGNORECASE] and [str.lower] are what [Re] and [Str] make of them. *)
Definition is_ascii_char (c : ascii) : bool := (N_of_ascii c <? 128)%N.

Fixpoint is_ascii (s : string) : bool :=
  match s with
  | EmptyString => true
  | String c r => is_ascii_char c && is_ascii r
  end.

(** The character before a position that comes after [s]. *)
Definition last_or (before : option ascii) (s : string) : option ascii :=
  match last_char s with
  | Some c => Some c
  | None => before
  end.

(** Every character is a word character. *)
Fixpoint all_word (s : string) : bool :=
  match s with
  | EmptyString => true
  | String c r => Re.is_word_char c && all_word r
  end.

(** The answer to the track-list request makes [get_playlist_tracks] raise. *)
Definition tracks_failed (resp : exn response) : bool :=
  match resp with
  | None => true
  | Some r =>
      match raise_for_status r, json_body r with
      | Some _, Some _ => false
      | _, _ => true
      end
  end.

(** [artist is None] *)
Definition is_null (v : json) : bool :=
  match v with
  | JNull => true
  | _ => false
  end.

(** [d[k]] on a dict with JSON keys: the value of the entry whose key
    equals [k]. *)
Fixpoint dict_get {V : Type} (k : json) (d : list (json * V)) : option V :=
  match d with
  | [] => None
  | (k', v) :: rest => if Py.eq k' k then Some v else dict_get k rest
  end.

(** The keys of a genre map. *)
Definition genre_keys (g : list (json * json)) : list json := map fst g.

Module Scenario.

(** The first search variant finds a playlist with 100 followers; every
    other search is answered 404. *)
Definition flaky_search : Fixture.catalog := {|
  Fixture.on_search q :=
    if String.eqb q "morning playlist"
    then Fixture.ok (Fixture.search_result [Fixture.playlist "p1" "Sunrise" "ann" 20])
    else Fixture.not_found;
  Fixture.on_playlist _ := Fixture.ok (Fixture.followers 100);
  Fixture.on_tracks _ := Fixture.not_found;
  Fixture.on_artists _ _ := Fixture.not_found
|}.

(** One track by an artist entry that has an id and no name. *)
Definition unnamed_artist : Fixture.catalog :=
  Fixture.track_response
    (Fixture.ok (Fixture.track_list
       [JObj [("track", JObj [("name", JStr "Song");
                              ("artists", JArr [JObj [("id", JStr "a1")]])])]])).

(** Two tracks by one artist each; every bulk lookup is answered 500. *)
Definition lookups_fail : Fixture.catalog := {|
  Fixture.on_search _ := Fixture.not_found;
  Fixture.on_playlist _ := Fixture.not_found;
  Fixture.on_tracks _ :=
    Fixture.ok (Fixture.track_list
                  [Fixture.track "One" [Fixture.artist "a1" "Ann"];
                   Fixture.track "Two" [Fixture.artist "a2" "Bob"]]);
  Fixture.on_artists _ _ :=
    Some {| status_code := 500; retry_after_header := None; json_body := None |}
|}.

(** Two tracks by one artist each; the bulk lookup gives their genres. *)
Definition two_tracks : Fixture.catalog := {|
  Fixture.on_search _ := Fixture.not_found;
  Fixture.on_playlist _ := Fixture.not_found;
  Fixture.on_tracks _ :=
    Fixture.ok (Fixture.track_list
                  [Fixture.track "One" [Fixture.artist "a1" "Ann"];
                   Fixture.track "Two" [Fixture.artist "a2" "Bob"]]);
  Fixture.on_artists _ _ :=
    Fixture.ok (JObj [("artists", JArr [Fixture.artist_genres "a1" "Ann" ["rock"];
                                        Fixture.artist_genres "a2" "Bob" ["jazz"]])])
|}.

(** Every search is answered 200 with a body that has no ["playlists"]. *)
Definition no_results : Fixture.catalog := {|
  Fixture.on_search _ := Fixture.ok (JObj [("message", JStr "nothing")]);
  Fixture.on_playlist _ := Fixture.not_found;
  Fixture.on_tracks _ := Fixture.not_found;
  Fixture.on_artists _ _ := Fixture.not_found
|}.

(** The first search variant finds four playlists, with 50, 200, 10 and
    200 followers in that order; the other variants find nothing new. *)
Definition four_playlists : Fixture.catalog := {|
  Fixture.on_search _ :=
    Fixture.ok (Fixture.search_result
                  [Fixture.playlist "a" "Sunrise" "ann" 20;
                   Fixture.playlist "b" "Daybreak" "bob" 20;
                   Fixture.playlist "c" "First light" "cat" 20;
                   Fixture.playlist "d" "Early hours" "dan" 20]);
  Fixture.on_playlist id :=
    Fixture.ok (Fixture.followers
                  (if Py.eq id (JStr "a") then 50
                   else if Py.eq id (JStr "c") then 10
                   else 200));
  Fixture.on_tracks _ := Fixture.not_found;
  Fixture.on_artists _ _ := Fixture.not_found
|}.

End Scenario.

(** * Properties *)

(** ** Text *)

Lemma prefix_app (q r : string) : String.prefix q (q ++ r) = true.
Proof.
  induction q as [|c q IH]; simpl.
  - destruct r; reflexivity.
  - destruct (ascii_dec c c); [exact IH | congruence].
Qed.

Lemma contains_prefix (q r : string) : Str.contains q (q ++ r) = true.
Proof.
  destruct q as [|c q].
  - destruct r; reflexivity.
  - change (Str.contains (String c q) (String c q ++ r))
      with (String.prefix (String c q) (String c q ++ r)
            || Str.contains (String c q) (q ++ r)).
    now rewrite prefix_app.
Qed.

Lemma contains_app (p q r : string) : Str.contains q (p ++ q ++ r) = true.
Proof.
  induction p as [|c p IH].
  - exact (contains_prefix q r).
  - change (Str.contains q (String c p ++ q ++ r))
      with (String.prefix q (String c (p ++ q ++ r))
            || Str.contains q (p ++ q ++ r)).
    rewrite IH. apply orb_true_r.
Qed.

(** ** Query expansion *)

(** C9: for every query the expansion is the four templates
    ["{query} playlist"], ["*{query}*"], ["{query} music"] and
    ["{query} vibes"], in that order: exactly four variants, each of which
    contains the query as a substring. *)
Theorem search_variations_four (query : string) :
  search_variations query =
    [query ++ " playlist"; "*" ++ query ++ "*"; query ++ " music"; query ++ " vibes"]
  /\ List.length (search_variations query) = 4%nat
  /\ Forall (fun variant => Str.contains query variant = true)
            (search_variations query).
Proof.
  split; [reflexivity | split; [reflexivity |]].
  unfold search_variations.
  repeat constructor.
  - apply contains_prefix.
  - apply (contains_app "*" query "*").
  - apply contains_prefix.
  - apply contains_prefix.
Qed.

(** ** Excluded time-of-day terms *)

(** C2, as stated, fails: with the query "night" the excluded terms are
    "morning", "afternoon" and "evening", so "Night Vibes" is not rejected
    by the excluded-terms rule either. *)
Lemma night_query_keeps_night_vibes :
  excluded_terms "night" = ["morning"; "afternoon"; "evening"]
  /\ ~ (excluded_term_rule (excluded_terms "night") "Nightlife Grooves" = false
        /\ excluded_term_rule (excluded_terms "night") "Night Vibes" = true).
Proof.
  split; [reflexivity |].
  intros [_ H]. vm_compute in H. discriminate H.
Qed.

(** C2, amended: whatever the query, "Nightlife Grooves" is not rejected
    by the excluded-terms rule (the match is on whole words), and
    "Night Vibes" is rejected exactly when the query is not "night"
    (compared without case), that is, when "night" is among the excluded
    terms; with the query "night" neither name is rejected. *)
Theorem excluded_rule_on_night_names (query : string) :
  excluded_term_rule (excluded_terms query) "Nightlife Grooves" = false
  /\ excluded_term_rule (excluded_terms query) "Night Vibes"
     = negb (String.eqb (Str.lower query) "night")
  /\ excluded_term_rule (excluded_terms "night") "Night Vibes" = false
  /\ excluded_term_rule (excluded_terms "morning") "Night Vibes" = true.
Proof.
  unfold excluded_terms, time_periods. cbn [filter].
  change (Str.lower "morning") with "morning".
  change (Str.lower "afternoon") with "afternoon".
  change (Str.lower "evening") with "evening".
  change (Str.lower "night") with "night".
  rewrite (String.eqb_sym (Str.lower query) "night").
  generalize (Str.lower query) as q. intro q.
  destruct (String.eqb "morning" q), (String.eqb "afternoon" q),
    (String.eqb "evening" q), (String.eqb "night" q);
    repeat split; vm_compute; reflexivity.
Qed.

(** ** The filter of one raw playlist *)

Ltac step_cases H :=
  repeat match type of H with
    | context [match ?x with _ => _ end] =>
        let E := fresh "E" in destruct x eqn:E; try discriminate H
    end.

(** What is known of a playlist that passed every check before enrichment. *)
Lemma candidate_next (excluded : list string) (min_tracks : Z)
      (playlist playlist_id : json) :
  candidate excluded min_tracks playlist = Next playlist_id ->
  exists fields name,
    playlist = JObj fields
    /\ Py.lookup "name" fields = Some name
    /\ Py.lookup "id" fields = Some playlist_id
    /\ track_count_rule playlist min_tracks = Some false.
Proof.
  unfold candidate, step_bind, try, continue_if.
  intro H.
  destruct playlist as [| b | n | s | items | fields];
    try (cbn in H; try discriminate H; step_cases H; fail).
  exists fields.
  cbn [Py.contains Py.get Py.getitem] in H.
  destruct (negb (Py.truthy (JObj fields))); [discriminate H |].
  destruct (Py.lookup "name" fields) as [name |] eqn:Ename; [| discriminate H].
  cbn [negb] in H.
  destruct (Py.lookup "tracks" fields) as [tracks |] eqn:Etracks; [| discriminate H].
  cbn [negb] in H.
  exists name.
  destruct (Py.get _ "id" JNull) as [owner_id |]; [| discriminate H].
  destruct (Py.eq owner_id (JStr "spotify")); [discriminate H |].
  destruct (any_excluded excluded name) as [[|] |]; try discriminate H.
  destruct (track_count_rule (JObj fields) min_tracks) as [[|] |] eqn:Erule;
    try discriminate H.
  destruct (is_setlist (JObj fields)) as [[|] |]; try discriminate H.
  destruct (Py.lookup "id" fields) as [id |] eqn:Eid; [| discriminate H].
  injection H as <-. auto.
Qed.

(** C6: the track-count rule is inclusive at the boundary.  A record with
    [tracks.total = n] is rejected by the rule when the minimum is [n + 1]
    (its total is the minimum less one), so that it never becomes a
    candidate, and is not rejected by the rule when the minimum is [n]. *)
Theorem track_count_rule_boundary (playlist : json) (n : Z) :
  tracks_total playlist = Some (JNum n) ->
  track_count_rule playlist (n + 1) = Some true
  /\ (forall excluded playlist_id,
         candidate excluded (n + 1) playlist <> Next playlist_id)
  /\ track_count_rule playlist n = Some false.
Proof.
  intro H.
  assert (R : forall m, track_count_rule playlist m = Some (n <? m)).
  { intro m. unfold track_count_rule. unfold tracks_total, exn_bind in H.
    destruct (Py.getitem playlist "tracks") as [tracks |]; [| discriminate H].
    destruct tracks; try discriminate H. cbn in H |- *. now rewrite H. }
  repeat split.
  - rewrite R. f_equal. lia.
  - intros excluded playlist_id C.
    apply candidate_next in C as (fields & name & _ & _ & _ & C).
    rewrite R in C. injection C as C. lia.
  - rewrite R. f_equal. lia.
Qed.

Lemma track_count_rule_boundary_witness :
  tracks_total (Fixture.playlist "p1" "Sunrise" "ann" 9) = Some (JNum 9)
  /\ track_count_rule (Fixture.playlist "p1" "Sunrise" "ann" 9) 10 = Some true
  /\ track_count_rule (Fixture.playlist "p1" "Sunrise" "ann" 9) 9 = Some false.
Proof.
  split; [reflexivity |].
  destruct (track_count_rule_boundary (Fixture.playlist "p1" "Sunrise" "ann" 9) 9
              eq_refl) as (H1 & _ & H2).
  split; [exact H1 | exact H2].
Defined.

(** ** Ranking *)

Section SortDesc.

Context {A : Type}.
Implicit Types (x : Z * A) (l : list (Z * A)).

Lemma insert_desc_perm x l : Permutation (x :: l) (insert_desc x l).
Proof.
  induction l as [|y l IH]; simpl; [reflexivity |].
  destruct (fst x <? fst y); [| reflexivity].
  rewrite perm_swap. now constructor.
Qed.

Lemma sort_desc_perm l : Permutation l (sort_desc l).
Proof.
  induction l as [|x l IH]; simpl; [constructor |].
  rewrite <- insert_desc_perm. now constructor.
Qed.

Lemma insert_desc_descending x l : descending l -> descending (insert_desc x l).
Proof.
  induction 1 as [|y l Hl IH Hy]; simpl.
  - repeat constructor.
  - destruct (fst x <? fst y) eqn:E.
    + constructor; [exact IH |].
      rewrite <- insert_desc_perm. constructor; [lia | exact Hy].
    + constructor; [now constructor |].
      constructor; [lia |].
      eapply Forall_impl; [| exact Hy]. simpl. intros; lia.
Qed.

Lemma sort_desc_descending l : descending (sort_desc l).
Proof.
  induction l; simpl; [constructor | now apply insert_desc_descending].
Qed.

Lemma insert_desc_stable (k : Z) x l :
  filter (fun e => fst e =? k) (insert_desc x l)
  = filter (fun e => fst e =? k) (x :: l).
Proof.
  induction l as [|y l IH]; [reflexivity |].
  cbn [insert_desc]. destruct (fst x <? fst y) eqn:E; [| reflexivity].
  cbn [filter] in *. rewrite IH.
  destruct (fst x =? k) eqn:Ex, (fst y =? k) eqn:Ey; try reflexivity. lia.
Qed.

Lemma sort_desc_stable (k : Z) l :
  filter (fun e => fst e =? k) (sort_desc l) = filter (fun e => fst e =? k) l.
Proof.
  induction l as [|x l IH]; [reflexivity |].
  cbn [sort_desc]. rewrite insert_desc_stable. cbn [filter]. now rewrite IH.
Qed.

(** Being descending and stable determines the result: any other stable
    sort in descending order gives the same list. *)
Lemma stable_descending_unique l1 l2 :
  descending l1 -> descending l2 ->
  (forall k, filter (fun e => fst e =? k) l1 = filter (fun e => fst e =? k) l2) ->
  l1 = l2.
Proof.
  revert l2. induction l1 as [|x l1 IH]; intros l2 D1 D2 F.
  - destruct l2 as [|y l2]; [reflexivity |].
    specialize (F (fst y)). cbn [filter] in F. rewrite Z.eqb_refl in F. discriminate F.
  - destruct l2 as [|y l2].
    { specialize (F (fst x)). cbn [filter] in F. rewrite Z.eqb_refl in F.
      discriminate F. }
    apply StronglySorted_inv in D1 as [D1 H1].
    apply StronglySorted_inv in D2 as [D2 H2].
    rewrite Forall_forall in H1, H2.
    assert (Lxy : fst x <= fst y).
    { assert (I : In x (filter (fun e => fst e =? fst x) (y :: l2))).
      { rewrite <- F. cbn [filter]. rewrite Z.eqb_refl. now left. }
      apply filter_In in I as [[-> | I] _]; [lia | now apply H2]. }
    assert (Lyx : fst y <= fst x).
    { assert (I : In y (filter (fun e => fst e =? fst y) (x :: l1))).
      { rewrite F. cbn [filter]. rewrite Z.eqb_refl. now left. }
      apply filter_In in I as [[-> | I] _]; [lia | now apply H1]. }
    assert (E : x = y).
    { specialize (F (fst x)). cbn [filter] in F.
      rewrite Z.eqb_refl in F. replace (fst y =? fst x) with true in F by lia.
      now injection F. }
    subst y. f_equal. apply IH; [exact D1 | exact D2 |].
    intro k. specialize (F k). cbn [filter] in F.
    destruct (fst x =? k); [now injection F | exact F].
Qed.

End SortDesc.

Lemma decorate_keyed (valid : list json) (d : list (Z * json)) :
  decorate valid = Some d -> map snd d = valid /\ Forall keyed d.
Proof.
  revert d. induction valid as [|p valid IH]; simpl; intros d H.
  - injection H as <-. split; constructor.
  - destruct (followers_key p) as [k |] eqn:Ek; [| discriminate H].
    destruct (decorate valid) as [r |]; [| discriminate H].
    injection H as <-. destruct (IH r eq_refl) as [<- F].
    split; [reflexivity | constructor; [exact Ek | exact F]].
Qed.

Lemma filter_keyed (k : Z) (d : list (Z * json)) :
  Forall keyed d ->
  filter (has_followers k) (map snd d) = map snd (filter (fun e => fst e =? k) d).
Proof.
  induction 1 as [|e d He _ IH]; [reflexivity |].
  cbn [map filter]. unfold has_followers at 1. rewrite He, IH.
  now destruct (fst e =? k).
Qed.

Lemma descending_keyed (d : list (Z * json)) :
  Forall keyed d -> descending d ->
  StronglySorted
    (fun p q => exists m n, followers_key p = Some m /\ followers_key q = Some n /\ n <= m)
    (map snd d).
Proof.
  intros K D. induction D as [|e d _ IH He]; [constructor |].
  inversion K as [|? ? Ke Kd]; subst.
  cbn [map]. constructor; [now apply IH |].
  rewrite Forall_map. rewrite Forall_forall in He, Kd |- *.
  intros e' I. exists (fst e), (fst e').
  split; [exact Ke | split; [exact (Kd e' I) | exact (He e' I)]].
Qed.

(** The ranking of accepted playlists, on its own: the ranked list is a
    rearrangement of the accepted one, follower counts never increase along
    it, and for every follower count the playlists that have it come in
    their order of acceptance. *)
Lemma sorted_by_followers_stable (valid : list json) (d : list (Z * json)) :
  decorate valid = Some d ->
  exists ranked,
    sorted_by_followers valid = Some ranked
    /\ Permutation valid ranked
    /\ StronglySorted
         (fun p q => exists m n,
              followers_key p = Some m /\ followers_key q = Some n /\ n <= m)
         ranked
    /\ (forall k, filter (has_followers k) ranked = filter (has_followers k) valid)
    /\ rank [Fixture.ranked "a" 50; Fixture.ranked "b" 200;
             Fixture.ranked "c" 10; Fixture.ranked "d" 200]
       = Some [JStr "b"; JStr "d"; JStr "a"; JStr "c"].
Proof.
  intro H. unfold sorted_by_followers. rewrite H.
  destruct (decorate_keyed _ _ H) as [M K].
  assert (K' : Forall keyed (sort_desc d)).
  { eapply Permutation_Forall; [apply sort_desc_perm | exact K]. }
  eexists. split; [reflexivity |]. repeat split.
  - rewrite <- M. apply Permutation_map, sort_desc_perm.
  - apply descending_keyed; [exact K' | apply sort_desc_descending].
  - intro k. rewrite <- M, !filter_keyed by assumption.
    now rewrite sort_desc_stable.
Qed.

Lemma sorted_by_followers_stable_witness :
  exists ranked,
    sorted_by_followers [Fixture.ranked "a" 50; Fixture.ranked "b" 200;
                         Fixture.ranked "c" 10; Fixture.ranked "d" 200]
    = Some ranked
    /\ filter (has_followers 200) ranked
       = [Fixture.ranked "b" 200; Fixture.ranked "d" 200].
Proof.
  destruct (sorted_by_followers_stable
              [Fixture.ranked "a" 50; Fixture.ranked "b" 200;
               Fixture.ranked "c" 10; Fixture.ranked "d" 200] _ eq_refl)
    as (ranked & S & _ & _ & F & _).
  exists ranked. split; [exact S |]. rewrite F. reflexivity.
Defined.

(** ** The state of [search_playlists] *)

Lemma py_eq_refl (x : json) : Py.hashable x = true -> Py.eq x x = true.
Proof.
  destruct x; simpl; try discriminate; intros _.
  - reflexivity.
  - now destruct b.
  - apply Z.eqb_refl.
  - apply String.eqb_refl.
Qed.

Lemma set_mem_false (x : json) (s : list json) :
  Py.set_mem x s = false -> forall y, In y s -> Py.eq x y = false.
Proof.
  intros H y I. destruct (Py.eq x y) eqn:E; [| reflexivity].
  assert (T : Py.set_mem x s = true) by (apply existsb_exists; eauto).
  congruence.
Qed.

Lemma lookup_set_item_same (k : string) (v : json) (fields : list (string * json)) :
  Py.lookup k (Py.set_item k v fields) = Some v.
Proof.
  induction fields as [|[k' v'] fields IH]; simpl.
  - now rewrite String.eqb_refl.
  - destruct (String.eqb k k') eqn:E; simpl; rewrite ?E, ?String.eqb_refl; auto.
Qed.

Lemma lookup_set_item_other (k k0 : string) (v : json) (fields : list (string * json)) :
  String.eqb k k0 = false ->
  Py.lookup k (Py.set_item k0 v fields) = Py.lookup k fields.
Proof.
  intro N. induction fields as [|[k' v'] fields IH]; simpl.
  - now rewrite N.
  - destruct (String.eqb k0 k') eqn:E; simpl.
    + apply String.eqb_eq in E. subst k'. now rewrite N.
    + now rewrite IH.
Qed.

Lemma enrich_next (details : json) (min_followers : Z) (followers : json) :
  enrich details min_followers = Next followers ->
  fetched_followers details = Some followers
  /\ exists f, Py.as_number followers = Some f /\ min_followers <= f.
Proof.
  unfold enrich, fetched_followers, exn_bind, step_bind, try, continue_if. intro H.
  destruct (negb (Py.truthy details)); [discriminate H |].
  destruct (Py.contains "followers" details) as [[|] |]; try discriminate H.
  cbn [negb] in H.
  destruct (Py.getitem details "followers") as [obj |]; [| discriminate H].
  destruct (Py.getitem obj "total") as [total |]; [| discriminate H].
  destruct (Py.as_number total) as [n |] eqn:En; [| discriminate H].
  destruct (n <? min_followers) eqn:Elt; [discriminate H |].
  injection H as <-. split; [reflexivity |]. exists n. split; [exact En | lia].
Qed.

Lemma total_at_least (playlist total : json) (min_tracks : Z) :
  tracks_total playlist = Some total ->
  track_count_rule playlist min_tracks = Some false ->
  exists t, Py.as_number total = Some t /\ min_tracks <= t.
Proof.
  unfold tracks_total, track_count_rule, exn_bind. intros T R.
  destruct (Py.getitem playlist "tracks") as [tracks |]; [| discriminate T].
  destruct tracks; try discriminate T. cbn in T, R. rewrite T in R.
  destruct (Py.as_number total) as [t |]; [| discriminate R].
  injection R as R. exists t. split; [reflexivity | lia].
Qed.

Lemma accepted_record_more (mt mf : Z) (t : list event) (e : event) (p : json) :
  accepted_record mt mf t p -> accepted_record mt mf (t ++ [e]) p.
Proof.
  intros (id & followers & d & H1 & H2 & H3 & H4 & H5).
  exists id, followers, d. repeat split; auto. apply in_or_app. now left.
Qed.

Lemma refetch_free_snoc (mf : Z) (t : list event) (e : event) :
  refetch_free mf t ->
  (forall id' result, e = Details id' result ->
     forall id d, In (Details id (Some d)) t -> accepted mf (Some d) = true ->
                  Py.eq id' id = false) ->
  refetch_free mf (t ++ [e]).
Proof.
  intros F New t1 t2 id d Split Acc id' result I.
  destruct (exists_last (l := t2)) as (t2' & e' & ->).
  { intro Z. subst t2. destruct I. }
  change (t ++ [e] = t1 ++ (Details id (Some d) :: t2') ++ [e'])%list in Split.
  rewrite app_assoc in Split. apply app_inj_tail in Split as [-> <-].
  apply in_app_or in I as [I | [I | []]].
  - now apply (F t1 t2' id d eq_refl Acc id' result).
  - apply (New id' result I id d); [| exact Acc].
    apply in_or_app. right. now left.
Qed.

Section SearchInvariant.

Context {World : Type} {requests : Requests World}.
Variables (excluded : list string) (min_tracks min_followers : Z).

Local Abbreviation inv := (search_inv min_tracks min_followers).

Lemma search_inv_initial (w : World) : inv (initial_state w).
Proof.
  constructor; simpl.
  - reflexivity.
  - constructor.
  - constructor.
  - intros ? ? [].
  - intros [|] ? ? ? S; discriminate S.
Qed.

(** An event that is not an accepting fetch leaves the invariant alone. *)
Lemma search_inv_event (st : search_state World) (w : World) (e : event) :
  inv st ->
  (forall id result, e = Details id result ->
     accepted min_followers result = false
     /\ Py.set_mem id (seen_playlist_ids st) = false) ->
  inv {| valid_playlists := valid_playlists st;
         seen_playlist_ids := seen_playlist_ids st;
         world := w;
         trace := trace st ++ [e] |}.
Proof.
  intros [I1 I2 I3 I4 I5] E. constructor; simpl.
  - exact I1.
  - exact I2.
  - eapply Forall_impl; [| exact I3]. intros p. apply accepted_record_more.
  - intros id d I Acc. apply in_app_or in I as [I | [I | []]].
    + now apply (I4 id d).
    + destruct (E _ _ I) as [N _]. simpl in N. congruence.
  - apply refetch_free_snoc; [exact I5 |].
    intros id' result -> id d I Acc.
    destruct (E _ _ eq_refl) as [_ M].
    apply (set_mem_false _ _ M). now apply (I4 id d).
Qed.

Lemma process_playlist_inv (st : search_state World) (playlist : json) :
  inv st -> inv (process_playlist excluded min_tracks min_followers st playlist).
Proof.
  intro I. unfold process_playlist.
  destruct (candidate excluded min_tracks playlist) as [id | |] eqn:C; try exact I.
  destruct (Py.hashable id) eqn:Hash; cbn [negb]; [| exact I].
  destruct (Py.set_mem id (seen_playlist_ids st)) eqn:Mem; [exact I |].
  destruct (get_playlist_details id (world st)) as [details w].
  assert (Rejected : accepted min_followers details = false ->
            inv {| valid_playlists := valid_playlists st;
                   seen_playlist_ids := seen_playlist_ids st;
                   world := w;
                   trace := trace st ++ [Details id details] |}).
  { intro N. apply search_inv_event; [exact I |].
    intros id' r E. injection E as <- <-. now split. }
  destruct details as [d |]; [| now apply Rejected].
  destruct (enrich d min_followers) as [followers | |] eqn:En;
    try (apply Rejected; simpl; now rewrite En).
  apply candidate_next in C as (fields & name & -> & Hname & Hid & Hrule).
  destruct I as [I1 I2 I3 I4 I5]. constructor; simpl.
  - rewrite map_app, I1. simpl. f_equal. f_equal.
    unfold id_of. simpl.
    rewrite lookup_set_item_other by reflexivity. now rewrite Hid.
  - apply NoDup_app; [exact I2 | repeat constructor; intros [] |].
    intros a Ia [<- | []].
    pose proof (set_mem_false _ _ Mem id Ia) as N.
    rewrite py_eq_refl in N by exact Hash. discriminate N.
  - apply Forall_app. split.
    + eapply Forall_impl; [| exact I3]. intros p. apply accepted_record_more.
    + constructor; [| constructor].
      exists id, followers, d. simpl. repeat split.
      * rewrite lookup_set_item_other by reflexivity. exact Hid.
      * unfold track_count_rule in *. simpl in *.
        rewrite lookup_set_item_other by reflexivity. exact Hrule.
      * apply lookup_set_item_same.
      * apply in_or_app. right. now left.
      * exact En.
  - intros id' d' I Acc. apply in_or_app.
    apply in_app_or in I as [I | [I | []]].
    + left. now apply (I4 id' d').
    + right. injection I as <- _. now left.
  - apply refetch_free_snoc; [exact I5 |].
    intros id' result E id0 d0 I Acc. injection E as <- _.
    apply (set_mem_false _ _ Mem). now apply (I4 id0 d0).
Qed.

Lemma process_all_inv (items : list json) (st : search_state World) :
  inv st ->
  inv (fold_left (process_playlist excluded min_tracks min_followers) items st).
Proof.
  revert st. induction items as [|p items IH]; intros st I; simpl.
  - exact I.
  - apply IH, process_playlist_inv, I.
Qed.

Lemma search_pass_inv (limit : Z) (st : search_state World) (q : string) :
  inv st ->
  inv (state_of (search_pass limit min_tracks min_followers excluded st q)).
Proof.
  intro I. unfold search_pass.
  destruct (get_search q limit (world st)) as [resp w].
  assert (S : inv {| valid_playlists := valid_playlists st;
                     seen_playlist_ids := seen_playlist_ids st;
                     world := w;
                     trace := trace st ++ [Search q] |}).
  { apply search_inv_event; [exact I | intros ? ? E; discriminate E]. }
  destruct resp as [r |]; [| exact S].
  destruct (raise_for_status r); [| exact S].
  destruct (json_body r) as [playlists |]; [| exact S].
  destruct (raw_items playlists) as [items | |]; try exact S.
  simpl. now apply process_all_inv.
Qed.

Lemma search_passes_inv (limit : Z) (qs : list string) (st : search_state World) :
  inv st ->
  inv (state_of (for_each (search_pass limit min_tracks min_followers excluded)
                          qs st)).
Proof.
  revert st. induction qs as [|q qs IH]; intros st I; simpl.
  - exact I.
  - pose proof (search_pass_inv limit st q I) as P.
    destruct (search_pass limit min_tracks min_followers excluded st q) as [s | s].
    + now apply IH.
    + exact P.
Qed.

End SearchInvariant.

(** ** The ranked output *)

Lemma map_exn_ids (l ids : list json) :
  map_exn (fun playlist => Py.getitem playlist "id") l = Some ids ->
  ids = map id_of l.
Proof.
  revert ids. induction l as [|p l IH]; simpl; intros ids H.
  - now injection H as <-.
  - unfold id_of at 1.
    destruct (Py.getitem p "id") as [id |]; [| discriminate H].
    destruct (map_exn _ l) as [r |]; [| discriminate H].
    injection H as <-. now rewrite (IH r eq_refl).
Qed.

Lemma map_exn_printed (l : list json) (done : list unit) :
  map_exn print_line l = Some done ->
  Forall (fun playlist => exists total, tracks_total playlist = Some total) l.
Proof.
  revert done. induction l as [|p l IH]; simpl; intros done H; [constructor |].
  destruct (print_line p) eqn:P; [| discriminate H].
  destruct (map_exn print_line l) as [r |]; [| discriminate H].
  constructor; [| now apply (IH r)].
  unfold print_line, exn_bind in P.
  destruct (Py.getitem p "name"); [| discriminate P].
  destruct (Py.get p "followers" (JNum 0)); [| discriminate P].
  destruct (tracks_total p) as [total |]; [| discriminate P].
  now exists total.
Qed.

Lemma rank_some (valid ids : list json) :
  rank valid = Some ids ->
  exists ranked,
    Permutation valid ranked
    /\ ids = map id_of ranked
    /\ Forall (fun playlist => exists total, tracks_total playlist = Some total) ranked.
Proof.
  unfold rank, exn_bind. intro H.
  destruct (sorted_by_followers valid) as [ranked |] eqn:S; [| discriminate H].
  destruct (map_exn print_line ranked) as [done |] eqn:P; [| discriminate H].
  exists ranked. repeat split.
  - unfold sorted_by_followers in S.
    destruct (decorate valid) as [d |] eqn:D; [| discriminate S].
    injection S as <-. destruct (decorate_keyed _ _ D) as [<- _].
    apply Permutation_map, sort_desc_perm.
  - now apply map_exn_ids.
  - now apply (map_exn_printed _ done).
Qed.

Section SearchPlaylistsProperties.

Context {World : Type} {requests : Requests World}.
Variables (query : string) (limit min_tracks min_followers : Z) (w : World).

Lemma search_playlists_inv :
  search_inv min_tracks min_followers
             (snd (search_playlists query limit min_tracks min_followers w)).
Proof.
  unfold search_playlists.
  pose proof (search_passes_inv (excluded_terms query) min_tracks min_followers
                limit (search_variations query) (initial_state w)
                (search_inv_initial min_tracks min_followers w)) as I.
  fold (search_loop query limit min_tracks min_followers w) in I.
  now destruct (search_loop query limit min_tracks min_followers w).
Qed.

Lemma search_playlists_some (ids : list json) :
  fst (search_playlists query limit min_tracks min_followers w) = Some ids ->
  rank (valid_playlists
          (snd (search_playlists query limit min_tracks min_followers w)))
  = Some ids.
Proof.
  unfold search_playlists.
  destruct (search_loop query limit min_tracks min_followers w); simpl;
    [auto | discriminate].
Qed.

Lemma search_playlists_nodup (ids : list json) :
  fst (search_playlists query limit min_tracks min_followers w) = Some ids ->
  NoDup ids.
Proof.
  intro H. apply search_playlists_some in H.
  apply rank_some in H as (ranked & P & -> & _).
  destruct search_playlists_inv as [I1 I2 _ _ _].
  eapply Permutation_NoDup; [apply Permutation_map, P |].
  now rewrite I1.
Qed.

(** C4: every id in the ranked output is the id of an accepted record
    whose track count is at least [min_tracks] and whose follower count,
    the one a detail fetch for that id returned, is at least
    [min_followers]; and no id occurs twice in the output, in however
    many search passes it was found. *)
Theorem search_playlists_output_valid (ids : list json) :
  fst (search_playlists query limit min_tracks min_followers w) = Some ids ->
  NoDup ids
  /\ forall playlist_id,
      In playlist_id ids ->
      exists playlist total t details followers f,
          In playlist
             (valid_playlists
                (snd (search_playlists query limit min_tracks min_followers w)))
          /\ Py.getitem playlist "id" = Some playlist_id
          /\ tracks_total playlist = Some total
          /\ Py.as_number total = Some t
          /\ min_tracks <= t
          /\ In (Details playlist_id (Some details))
                (trace (snd (search_playlists query limit min_tracks
                                              min_followers w)))
          /\ fetched_followers details = Some followers
          /\ Py.getitem playlist "followers" = Some followers
          /\ Py.as_number followers = Some f
          /\ min_followers <= f.
Proof.
  intro H. pose proof (search_playlists_nodup ids H) as N.
  split; [exact N |]. intros id I.
  apply search_playlists_some in H.
  apply rank_some in H as (ranked & P & -> & T).
  apply in_map_iff in I as (p & <- & Ip).
  destruct search_playlists_inv as [_ _ I3 _ _].
  rewrite Forall_forall in I3, T.
  destruct (T p Ip) as [total Ht].
  apply (Permutation_in _ (Permutation_sym P)) in Ip.
  destruct (I3 p Ip) as (id & followers & d & Hid & Hrule & Hf & Hd & He).
  destruct (total_at_least _ _ _ Ht Hrule) as (t & Hn & Hle).
  destruct (enrich_next _ _ _ He) as (Hff & f & Hfn & Hfle).
  exists p, total, t, d, followers, f.
  unfold id_of. rewrite Hid. repeat split; auto.
Qed.

End SearchPlaylistsProperties.

Lemma search_playlists_output_valid_witness :
  fst (search_playlists (requests := Fixture.serve (Fixture.one_playlist 100))
                        "morning" 10 10 50 0%nat)
  = Some [JStr "p1"]
  /\ NoDup [JStr "p1"].
Proof.
  split; [reflexivity |].
  exact (proj1 (search_playlists_output_valid
                  (requests := Fixture.serve (Fixture.one_playlist 100))
                  "morning" 10 10 50 0%nat [JStr "p1"] eq_refl)).
Defined.

(** ** Detail fetches *)

(** C3, as stated, fails: a playlist found by all four search variants
    whose follower count is below the minimum is never recorded as seen,
    and its details are fetched four times. *)
Lemma rejected_id_fetched_in_every_pass :
  fetch_count (JStr "p1")
    (trace (snd (search_playlists
                   (requests := Fixture.serve (Fixture.one_playlist 10))
                   "morning" 10 10 50 0%nat)))
  = 4%nat
  /\ ~ (fetch_count (JStr "p1")
          (trace (snd (search_playlists
                         (requests := Fixture.serve (Fixture.one_playlist 10))
                         "morning" 10 10 50 0%nat)))
        <= 1)%nat.
Proof.
  assert (E : fetch_count (JStr "p1")
                (trace (snd (search_playlists
                               (requests := Fixture.serve (Fixture.one_playlist 10))
                               "morning" 10 10 50 0%nat)))
              = 4%nat) by (vm_compute; reflexivity).
  split; [exact E | rewrite E; lia].
Qed.

(** C3, amended: once the details fetched for a playlist id led to its
    acceptance (a follower count at or above [min_followers]), no later
    encounter of that id, in the same pass or a later one, fetches its
    details again, and the id is not emitted again: the output has no
    duplicates. *)
Theorem accepted_id_not_fetched_again
        {World : Type} {requests : Requests World}
        (query : string) (limit min_tracks min_followers : Z) (w : World)
        (before after : list event) (playlist_id details : json) :
  trace (snd (search_playlists query limit min_tracks min_followers w))
  = (before ++ Details playlist_id (Some details) :: after)%list ->
  accepted min_followers (Some details) = true ->
  (forall id' result, In (Details id' result) after -> Py.eq id' playlist_id = false)
  /\ fetch_count playlist_id after = 0%nat
  /\ forall ids,
      fst (search_playlists query limit min_tracks min_followers w) = Some ids ->
      NoDup ids.
Proof.
  intros Split Acc.
  destruct (search_playlists_inv query limit min_tracks min_followers w)
    as [_ _ _ _ F].
  pose proof (F before after playlist_id details Split Acc) as Later.
  split; [exact Later | split].
  - unfold fetch_count.
    replace (filter (is_fetch_of playlist_id) after) with (@nil event);
      [reflexivity |].
    symmetry. clear Split. induction after as [|e rest IH]; [reflexivity |].
    cbn [filter].
    assert (N : is_fetch_of playlist_id e = false).
    { destruct e; try reflexivity. simpl. apply (Later _ result). now left. }
    rewrite N. apply IH. intros id' r I. apply (Later id' r). now right.
  - apply search_playlists_nodup.
Qed.

Lemma accepted_id_not_fetched_again_witness :
  fetch_count (JStr "p1")
    [Search "*morning*"; Search "morning music"; Search "morning vibes"] = 0%nat.
Proof.
  exact (proj1 (proj2
    (accepted_id_not_fetched_again
       (requests := Fixture.serve (Fixture.one_playlist 100))
       "morning" 10 10 50 0%nat
       [Search "morning playlist"]
       [Search "*morning*"; Search "morning music"; Search "morning vibes"]
       (JStr "p1") (Fixture.followers 100) eq_refl eq_refl))).
Defined.

(** ** Batches of artists *)

Section Chunks.

Context {A : Type}.
Variable size : nat.
Hypothesis size_pos : (0 < size)%nat.
Implicit Type l : list A.

Lemma range_by_zero : range_by 0 size = [].
Proof.
  unfold range_by. rewrite Nat.add_0_l, Nat.div_small by lia. reflexivity.
Qed.

Lemma range_by_step (n : nat) :
  (0 < n)%nat ->
  range_by n size = 0%nat :: map (fun i => (i + size)%nat) (range_by (n - size) size).
Proof.
  intro P. unfold range_by.
  assert (E : ((n + (size - 1)) / size = S ((n - size + (size - 1)) / size))%nat).
  { destruct (Nat.le_gt_cases size n) as [L | L].
    - replace (n + (size - 1))%nat with ((n - size + (size - 1)) + 1 * size)%nat by lia.
      rewrite Nat.div_add by lia. lia.
    - replace (n - size)%nat with 0%nat by lia.
      rewrite Nat.add_0_l, (Nat.div_small (size - 1)) by lia.
      replace (n + (size - 1))%nat with ((n - 1) + 1 * size)%nat by lia.
      rewrite Nat.div_add, Nat.div_small by lia. reflexivity. }
  rewrite E. cbn [seq map]. f_equal.
  rewrite <- seq_shift, !map_map. apply map_ext. intro k. lia.
Qed.

Lemma chunks_nil : chunks size (@nil A) = [].
Proof. unfold chunks. cbn [List.length]. now rewrite range_by_zero. Qed.

Lemma chunks_step l :
  l <> [] -> chunks size l = firstn size l :: chunks size (skipn size l).
Proof.
  intro N. unfold chunks.
  rewrite range_by_step by (destruct l; [congruence | simpl; lia]).
  cbn [map]. f_equal.
  - unfold slice. rewrite Nat.add_0_l, Nat.sub_0_r. reflexivity.
  - rewrite length_skipn, map_map. apply map_ext. intro i.
    unfold slice. rewrite skipn_skipn. f_equal. lia.
Qed.

Lemma chunks_concat l : List.concat (chunks size l) = l.
Proof.
  remember (List.length l) as n eqn:E. revert l E.
  induction n as [n IH] using lt_wf_ind. intros l E.
  destruct l as [|x l]; [now rewrite chunks_nil |].
  rewrite chunks_step by discriminate. cbn [List.concat].
  rewrite (IH (List.length (skipn size (x :: l)))); [apply firstn_skipn | | reflexivity].
  rewrite length_skipn. subst n. cbn [List.length]. lia.
Qed.

Lemma chunks_lengths l :
  map (@List.length A) (chunks size l)
  = map (fun i => Nat.min size (List.length l - i)) (range_by (List.length l) size).
Proof using size_pos.
  unfold chunks. rewrite map_map. apply map_ext. intro i.
  unfold slice. rewrite length_firstn, length_skipn. f_equal. lia.
Qed.

Lemma chunks_bounded l :
  Forall (fun b => (0 < List.length b <= size)%nat) (chunks size l).
Proof.
  remember (List.length l) as n eqn:E. revert l E.
  induction n as [n IH] using lt_wf_ind. intros l E.
  destruct l as [|x l]; [rewrite chunks_nil; constructor |].
  rewrite chunks_step by discriminate. constructor.
  - rewrite length_firstn. cbn [List.length]. lia.
  - apply (IH (List.length (skipn size (x :: l)))); [| reflexivity].
    rewrite length_skipn. subst n. cbn [List.length]. lia.
Qed.

End Chunks.

Lemma artist_calls_app (t1 t2 : list event) :
  artist_calls (t1 ++ t2) = (artist_calls t1 ++ artist_calls t2)%list.
Proof.
  induction t1 as [|e t1 IH]; [reflexivity |].
  destruct e; simpl; now rewrite IH.
Qed.

Lemma map_exn_length {A B : Type} (f : A -> exn B) (l : list A) (ys : list B) :
  map_exn f l = Some ys -> List.length ys = List.length l.
Proof.
  revert ys. induction l as [|x l IH]; simpl; intros ys H.
  - now injection H as <-.
  - destruct (f x); [| discriminate H].
    destruct (map_exn f l) as [r |]; [| discriminate H].
    injection H as <-. simpl. now rewrite (IH r).
Qed.

Section BatchLoop.

Context {World : Type} {requests : Requests World}.
Implicit Types (st : genre_state World) (batch : list artist_ref).

(** A batch the loop gets past made exactly one bulk lookup. *)
Lemma process_batch_calls st batch st' :
  process_batch st batch = Normal st' ->
  exists ids,
    artist_id_str batch = Some ids
    /\ artist_calls (genre_trace st')
       = (artist_calls (genre_trace st) ++ [ids])%list.
Proof.
  unfold process_batch. intro H.
  destruct (artist_id_str batch) as [ids |]; [| discriminate H].
  exists ids. split; [reflexivity |].
  destruct (get_artists ids (genre_world st)) as [resp w].
  destruct resp as [r |]; [| discriminate H].
  destruct (status_code r =? 429).
  - destruct (retry_after r) as [s |]; [| discriminate H].
    destruct (s <? 0); [discriminate H |].
    injection H as <-. simpl. now rewrite artist_calls_app.
  - destruct (status_code r =? 200).
    + destruct (exn_bind _ _); [| discriminate H].
      injection H as <-. simpl. now rewrite artist_calls_app.
    + injection H as <-. simpl. now rewrite artist_calls_app.
Qed.

Lemma batch_loop_calls (bs : list (list artist_ref)) st st' :
  for_each process_batch bs st = Normal st' ->
  exists calls,
    map_exn artist_id_str bs = Some calls
    /\ artist_calls (genre_trace st')
       = (artist_calls (genre_trace st) ++ calls)%list.
Proof.
  revert st. induction bs as [|b bs IH]; simpl; intros st H.
  - injection H as <-. exists []. now rewrite app_nil_r.
  - destruct (process_batch st b) as [s |] eqn:P; [| discriminate H].
    destruct (process_batch_calls _ _ _ P) as (ids & -> & C1).
    destruct (IH _ H) as (calls & -> & C2).
    exists (ids :: calls). split; [reflexivity |].
    now rewrite C2, C1, <- app_assoc.
Qed.

End BatchLoop.

(** The batches, on their own: consecutive pieces of at most 50, which
    put end to end give the sequence back; a run of the batch loop that
    ends normally has made one bulk lookup per batch. *)
Lemma batches_partition {World : Type} {requests : Requests World}
        (artist_ids : list artist_ref) :
  List.concat (batches artist_ids) = artist_ids
  /\ Forall (fun batch => (0 < List.length batch <= 50)%nat) (batches artist_ids)
  /\ (forall (st st' : genre_state World),
         for_each process_batch (batches artist_ids) st = Normal st' ->
         List.length (artist_calls (genre_trace st'))
         = (List.length (artist_calls (genre_trace st))
            + List.length (batches artist_ids))%nat)
  /\ (List.length artist_ids = 120%nat ->
      map (@List.length artist_ref) (batches artist_ids) = [50; 50; 20]%nat
      /\ List.length (batches artist_ids) = 3%nat).
Proof.
  change (batches artist_ids) with (chunks 50 artist_ids).
  split; [apply chunks_concat; lia |].
  split; [apply chunks_bounded; lia |].
  split.
  - intros st st' H.
    destruct (batch_loop_calls _ _ _ H) as (calls & M & ->).
    rewrite length_app. f_equal. now apply map_exn_length in M.
  - intro L.
    assert (S : map (@List.length artist_ref) (chunks 50 artist_ids)
                = [50; 50; 20]%nat).
    { rewrite chunks_lengths, L by lia. reflexivity. }
    split; [exact S |].
    rewrite <- (length_map (@List.length artist_ref)), S. reflexivity.
Qed.

Lemma batches_partition_witness :
  List.length (Fixture.many_refs 120) = 120%nat
  /\ map (@List.length artist_ref) (batches (Fixture.many_refs 120))
     = [50; 50; 20]%nat.
Proof.
  split; [reflexivity |].
  exact (proj1 (proj2 (proj2 (proj2
    (batches_partition (requests := Fixture.serve (Fixture.many_artists 120))
                       (Fixture.many_refs 120))))
    eq_refl)).
Defined.

(** A track list of 120 distinct artists, run through [get_track_genres]:
    three bulk lookups, and the call returns. *)
Example many_artists_three_calls :
  fst (get_track_genres (requests := Fixture.serve (Fixture.many_artists 120))
                        "pl" 0%nat) = Some []
  /\ List.length
       (artist_calls
          (genre_trace
             (snd (get_track_genres
                     (requests := Fixture.serve (Fixture.many_artists 120))
                     "pl" 0%nat)))) = 3%nat.
Proof. split; vm_compute; reflexivity. Qed.

(** ** Empty track lists *)

(** C8: when the track-list response is absent ([None]), has no [items]
    field, or has an empty [items] list, [get_track_genres] returns the
    empty mapping; it does not raise and makes no bulk lookup. *)
Theorem empty_track_list_gives_empty_map
        {World : Type} {requests : Requests World}
        (playlist_id : string) (w w' : World) (playlist_tracks : json) :
  get_playlist_tracks playlist_id w = (Some playlist_tracks, w') ->
  playlist_tracks = JNull
  \/ (exists fields,
        playlist_tracks = JObj fields /\ Py.lookup "items" fields = None)
  \/ (exists fields,
        playlist_tracks = JObj fields /\ Py.lookup "items" fields = Some (JArr [])) ->
  fst (get_track_genres playlist_id w) = Some []
  /\ genre_trace (snd (get_track_genres playlist_id w)) = [Tracks playlist_id].
Proof.
  intros G Shape. unfold get_track_genres. rewrite G.
  destruct Shape as [-> | [(fields & -> & L) | (fields & -> & L)]].
  - split; reflexivity.
  - destruct fields as [|kv fields]; [split; reflexivity |].
    cbn [Py.truthy negb Py.contains]. rewrite L. split; reflexivity.
  - destruct fields as [|kv fields]; [discriminate L |].
    cbn [Py.truthy negb Py.contains]. rewrite L.
    unfold playlist_artists, exn_bind. cbn [Py.getitem]. rewrite L.
    split; reflexivity.
Qed.

Lemma empty_track_list_gives_empty_map_witness :
  fst (get_track_genres
         (requests := Fixture.serve
                        (Fixture.track_response (Fixture.ok (Fixture.track_list []))))
         "pl" 0%nat)
  = Some [].
Proof.
  refine (proj1 (empty_track_list_gives_empty_map
                   (requests := Fixture.serve
                      (Fixture.track_response (Fixture.ok (Fixture.track_list []))))
                   "pl" 0%nat 0%nat (Fixture.track_list []) eq_refl _)).
  right. right. exists [("items", JArr [])]. split; reflexivity.
Defined.

(** ** Rate limiting *)

(** On a 429 the batch loop reads the delay, sleeps, and goes on to the
    next batch with the genre map as it was. *)
Lemma process_batch_rate_limited
      {World : Type} {requests : Requests World}
      (st : genre_state World) (batch : list artist_ref) (ids : string)
      (r : response) (w : World) (seconds : Z) :
  artist_id_str batch = Some ids ->
  get_artists ids (genre_world st) = (Some r, w) ->
  status_code r = 429 ->
  retry_after r = Some seconds ->
  0 <= seconds ->
  process_batch st batch
  = Normal {| genres := genres st; genre_world := w;
              genre_trace := genre_trace st ++ [Artists ids; Sleep seconds] |}.
Proof.
  intros I G S R P. unfold process_batch. rewrite I, G, S, R. cbn [Z.eqb Pos.eqb].
  destruct (seconds <? 0) eqn:E; [lia | reflexivity].
Qed.

(** C1, on the code: the catalogue answers the first bulk lookup of the
    only batch with 429 and [Retry-After: 5], and would answer any later
    lookup with the genres.  The function sleeps 5 seconds (60 when the
    header is absent) and returns the empty mapping after a single lookup:
    the batch is not looked up again, although a lookup made after the
    delay gives the genres of the track. *)
Theorem rate_limited_batch_not_retried :
  get_track_genres (requests := Fixture.serve (Fixture.throttled_once (Some "5")))
                   "pl" 0%nat
  = (Some [],
     {| genres := []; genre_world := 1%nat;
        genre_trace := [Tracks "pl"; Artists "a1"; Sleep 5] |})
  /\ genre_trace
       (snd (get_track_genres
               (requests := Fixture.serve (Fixture.throttled_once None))
               "pl" 0%nat))
     = [Tracks "pl"; Artists "a1"; Sleep 60]
  /\ fst (get_track_genres
            (requests := Fixture.serve (Fixture.throttled_once (Some "5")))
            "pl" 1%nat)
     = Some [(JStr "Song", JArr [JStr "rock"])].
Proof. repeat split; vm_compute; reflexivity. Qed.

(** ** Tracks without a name *)

Lemma track_artists_track (track_name : json) (artists : list json)
      (refs : list artist_ref) :
  track_artists track_name artists = Some refs ->
  Forall (fun r => ref_track r = track_name) refs.
Proof.
  revert refs. induction artists as [|a artists IH]; simpl; intros refs H.
  - injection H as <-. constructor.
  - unfold exn_bind in H.
    destruct (Py.contains "id" a) as [has_id |]; [| discriminate H].
    destruct (track_artists track_name artists) as [others |] eqn:O.
    + specialize (IH others eq_refl).
      destruct has_id.
      * destruct (Py.getitem a "name"); [| discriminate H].
        destruct (Py.getitem a "id"); [| discriminate H].
        injection H as <-. constructor; [reflexivity | exact IH].
      * injection H as <-. exact IH.
    + destruct has_id; [| discriminate H].
      destruct (Py.getitem a "name"); [| discriminate H].
      destruct (Py.getitem a "id"); discriminate H.
Qed.

(** C10: an item whose track object is present but has no ["name"] field
    is not skipped.  Its artists are collected as for any other track, with
    [None] as the track name of every reference; so the genre map can get a
    [None] key, under which the genres of all such tracks are written one
    over the other: for two nameless tracks, by artists of genres "rock"
    and "jazz", the map returned is the single entry [None: ["jazz"]]. *)
Theorem nameless_track_keyed_by_none (item : json) (fields : list (string * json)) :
  Py.get item "track" JNull = Some (JObj fields) ->
  fields <> [] ->
  Py.lookup "name" fields = None ->
  item_artists item <> Continue
  /\ item_artists item
     = try (artists <- Py.get (JObj fields) "artists" (JArr []) ;;
            artist_list <- Py.iterate artists ;;
            track_artists JNull artist_list)%exn
  /\ (forall refs, item_artists item = Next refs ->
                   Forall (fun r => ref_track r = JNull) refs)
  /\ item_artists (Fixture.nameless_track [Fixture.artist "a1" "Ann"])
     = Next [{| ref_name := JStr "Ann"; ref_id := JStr "a1"; ref_track := JNull |}]
  /\ fst (get_track_genres (requests := Fixture.serve Fixture.nameless_pair)
                           "pl" 0%nat)
     = Some [(JNull, JArr [JStr "jazz"])].
Proof.
  intros T N L.
  assert (E : item_artists item
              = try (artists <- Py.get (JObj fields) "artists" (JArr []) ;;
                     artist_list <- Py.iterate artists ;;
                     track_artists JNull artist_list)%exn).
  { unfold item_artists. rewrite T.
    destruct fields as [|kv fields]; [congruence |].
    cbn [step_bind try continue_if Py.truthy negb Py.get]. rewrite L.
    unfold exn_bind.
    destruct (Py.lookup "artists" (kv :: fields)) as [artists |]; cbn [try step_bind].
    - destruct (Py.iterate artists) as [l |]; reflexivity.
    - reflexivity. }
  split; [| split; [exact E | split; [| split; vm_compute; reflexivity]]].
  - rewrite E. now destruct (exn_bind _ _).
  - intros refs R. rewrite E in R. unfold exn_bind in R.
    destruct (Py.get (JObj fields) "artists" (JArr [])) as [artists |];
      [| discriminate R].
    destruct (Py.iterate artists) as [l |]; [| discriminate R].
    destruct (track_artists JNull l) as [refs' |] eqn:TA; [| discriminate R].
    injection R as <-. now apply (track_artists_track _ l).
Qed.

Lemma nameless_track_keyed_by_none_witness :
  Forall (fun r => ref_track r = JNull)
         [{| ref_name := JStr "Ann"; ref_id := JStr "a1"; ref_track := JNull |}].
Proof.
  refine (proj1 (proj2 (proj2
    (nameless_track_keyed_by_none
       (Fixture.nameless_track [Fixture.artist "a1" "Ann"])
       [("id", JStr "t"); ("artists", JArr [Fixture.artist "a1" "Ann"])]
       eq_refl _ eq_refl))) _ eq_refl).
  discriminate.
Defined.

(** * Further properties *)

(** ** Excluded terms *)

(** The excluded terms are time-of-day terms other than the query
    (compared without case); there are at least three of them, and all
    four when the query is not a time of day. *)
Theorem excluded_terms_leave_out_query (query : string) :
  (forall term,
      In term (excluded_terms query) ->
      In term time_periods
      /\ String.eqb (Str.lower term) (Str.lower query) = false)
  /\ (3 <= List.length (excluded_terms query) <= 4)%nat
  /\ (~ In (Str.lower query) time_periods -> excluded_terms query = time_periods).
Proof.
  split; [| split].
  - intros term I. apply filter_In in I as [I N].
    split; [exact I | now apply negb_true_iff in N].
  - unfold excluded_terms, time_periods. cbn [filter].
    change (Str.lower "morning") with "morning".
    change (Str.lower "afternoon") with "afternoon".
    change (Str.lower "evening") with "evening".
    change (Str.lower "night") with "night".
    generalize (Str.lower query) as q. intro q.
    destruct (String.eqb "morning" q) eqn:E1, (String.eqb "afternoon" q) eqn:E2,
      (String.eqb "evening" q) eqn:E3, (String.eqb "night" q) eqn:E4;
      cbn; try lia; exfalso;
      repeat match goal with
        | H : String.eqb _ q = true |- _ => apply String.eqb_eq in H
        end; congruence.
  - intro N. unfold excluded_terms.
    assert (A : forall term, In term time_periods ->
                negb (String.eqb (Str.lower term) (Str.lower query)) = true).
    { intros term I. apply negb_true_iff, String.eqb_neq. intro E. apply N.
      rewrite <- E.
      destruct I as [<- | [<- | [<- | [<- | []]]]]; cbn; tauto. }
    revert A. generalize time_periods as l.
    induction l as [|t l IH]; intro A; [reflexivity |].
    cbn [filter]. rewrite (A t) by now left.
    f_equal. apply IH. intros term I. apply A. now right.
Qed.

(** ** What a candidate passed *)

Lemma candidate_passed (excluded : list string) (min_tracks : Z)
      (playlist playlist_id : json) :
  candidate excluded min_tracks playlist = Next playlist_id ->
  exists name,
    Py.getitem playlist "name" = Some (JStr name)
    /\ excluded_term_rule excluded name = false
    /\ setlist_rule name = false
    /\ owned_by_spotify playlist = Some false
    /\ Py.getitem playlist "id" = Some playlist_id
    /\ track_count_rule playlist min_tracks = Some false.
Proof.
  intro H.
  destruct (candidate_next _ _ _ _ H) as (fields & name & -> & Hname & Hid & Hrule).
  unfold candidate, step_bind, try, continue_if in H.
  cbn [Py.contains Py.getitem Py.truthy] in H.
  destruct (negb _); [discriminate H |].
  rewrite Hname in H. cbn [negb] in H.
  destruct (Py.lookup "tracks" fields); [| discriminate H]. cbn [negb] in H.
  unfold owned_by_spotify, exn_bind.
  destruct (Py.get (JObj fields) "owner" (JObj [])) as [owner |]; [| discriminate H].
  destruct (Py.get owner "id" JNull) as [owner_id |]; [| discriminate H].
  destruct (Py.eq owner_id (JStr "spotify")); [discriminate H |].
  destruct (any_excluded excluded name) as [[|] |] eqn:Ex; try discriminate H.
  rewrite Hrule in H.
  destruct (is_setlist (JObj fields)) as [[|] |] eqn:Es; try discriminate H.
  unfold is_setlist in Es. cbn [Py.get] in Es. rewrite Hname in Es.
  destruct name as [| | | s | |]; try discriminate Es.
  exists s. injection Es as Es.
  repeat split; auto.
  unfold any_excluded in Ex. destruct excluded; [reflexivity | now injection Ex].
Qed.

Lemma with_followers_getitem (fields : list (string * json)) (followers : json)
      (k : string) :
  String.eqb k "followers" = false ->
  Py.getitem (with_followers (JObj fields) followers) k = Py.getitem (JObj fields) k.
Proof. intro N. simpl. now apply lookup_set_item_other. Qed.

Lemma with_followers_owner (fields : list (string * json)) (followers : json) :
  owned_by_spotify (with_followers (JObj fields) followers)
  = owned_by_spotify (JObj fields).
Proof.
  unfold owned_by_spotify. simpl.
  now rewrite lookup_set_item_other by reflexivity.
Qed.

(** What is known of a record made from a candidate. *)
Lemma made_from_passed (excluded : list string) (min_tracks : Z) (record : json) :
  made_from excluded min_tracks record ->
  exists name,
    Py.getitem record "name" = Some (JStr name)
    /\ excluded_term_rule excluded name = false
    /\ setlist_rule name = false
    /\ owned_by_spotify record = Some false.
Proof.
  intros (raw & id & followers & C & ->).
  destruct (candidate_next _ _ _ _ C) as (fields & _ & -> & _).
  destruct (candidate_passed _ _ _ _ C) as (name & Hn & He & Hs & Ho & _).
  exists name. rewrite with_followers_getitem by reflexivity.
  rewrite with_followers_owner. auto.
Qed.

(** ** Where records and fetches come from *)

Lemma accepting_fetches_snoc (mf : Z) (t : list event) (e : event) :
  accepting_fetches mf (t ++ [e])
  = (accepting_fetches mf t + (if is_accepting mf e then 1 else 0))%nat.
Proof.
  unfold accepting_fetches. rewrite filter_app, length_app. cbn [filter].
  now destruct (is_accepting mf e).
Qed.

Section SearchOrigin.

Context {World : Type} {requests : Requests World}.
Variables (excluded : list string) (min_tracks min_followers : Z).

Local Abbreviation origin := (search_origin excluded min_tracks min_followers).

Lemma search_origin_initial (w : World) : origin (initial_state w).
Proof.
  constructor; simpl; [constructor | intros ? ? [] | reflexivity].
Qed.

Lemma search_origin_event (st : search_state World) (w : World) (e : event) :
  origin st ->
  is_accepting min_followers e = false ->
  (forall id result, e = Details id result ->
     exists raw, candidate excluded min_tracks raw = Next id) ->
  origin {| valid_playlists := valid_playlists st;
            seen_playlist_ids := seen_playlist_ids st;
            world := w;
            trace := trace st ++ [e] |}.
Proof.
  intros [O1 O2 O3] N C. constructor; simpl.
  - exact O1.
  - intros id r I. apply in_app_or in I as [I | [I | []]].
    + now apply (O2 id r).
    + now apply (C id r).
  - rewrite accepting_fetches_snoc, N. lia.
Qed.

Lemma process_playlist_origin (st : search_state World) (playlist : json) :
  origin st ->
  origin (process_playlist excluded min_tracks min_followers st playlist).
Proof.
  intro O. unfold process_playlist.
  destruct (candidate excluded min_tracks playlist) as [id | |] eqn:C; try exact O.
  destruct (Py.hashable id); cbn [negb]; [| exact O].
  destruct (Py.set_mem id (seen_playlist_ids st)); [exact O |].
  destruct (get_playlist_details id (world st)) as [details w].
  assert (Rejected : accepted min_followers details = false ->
            origin {| valid_playlists := valid_playlists st;
                      seen_playlist_ids := seen_playlist_ids st;
                      world := w;
                      trace := trace st ++ [Details id details] |}).
  { intro N. apply search_origin_event; [exact O | exact N |].
    intros id' r E. injection E as <- _. now exists playlist. }
  destruct details as [d |]; [| now apply Rejected].
  destruct (enrich d min_followers) as [followers | |] eqn:En;
    try (apply Rejected; simpl; now rewrite En).
  destruct O as [O1 O2 O3]. constructor; simpl.
  - apply Forall_app. split; [exact O1 |].
    constructor; [| constructor]. now exists playlist, id, followers.
  - intros id' r I. apply in_app_or in I as [I | [I | []]].
    + now apply (O2 id' r).
    + injection I as <- _. now exists playlist.
  - rewrite accepting_fetches_snoc, length_app. simpl. rewrite En, O3. reflexivity.
Qed.

Lemma process_all_origin (items : list json) (st : search_state World) :
  origin st ->
  origin (fold_left (process_playlist excluded min_tracks min_followers) items st).
Proof.
  revert st. induction items as [|p items IH]; intros st O; simpl.
  - exact O.
  - apply IH, process_playlist_origin, O.
Qed.

Lemma search_pass_origin (limit : Z) (st : search_state World) (q : string) :
  origin st ->
  origin (state_of (search_pass limit min_tracks min_followers excluded st q)).
Proof.
  intro O. unfold search_pass.
  destruct (get_search q limit (world st)) as [resp w].
  assert (S : origin {| valid_playlists := valid_playlists st;
                        seen_playlist_ids := seen_playlist_ids st;
                        world := w;
                        trace := trace st ++ [Search q] |}).
  { apply search_origin_event; [exact O | reflexivity |].
    intros ? ? E; discriminate E. }
  destruct resp as [r |]; [| exact S].
  destruct (raise_for_status r); [| exact S].
  destruct (json_body r) as [playlists |]; [| exact S].
  destruct (raw_items playlists) as [items | |]; try exact S.
  simpl. now apply process_all_origin.
Qed.

Lemma search_passes_origin (limit : Z) (qs : list string) (st : search_state World) :
  origin st ->
  origin (state_of (for_each (search_pass limit min_tracks min_followers excluded)
                             qs st)).
Proof.
  revert st. induction qs as [|q qs IH]; intros st O; simpl.
  - exact O.
  - pose proof (search_pass_origin limit st q O) as P.
    destruct (search_pass limit min_tracks min_followers excluded st q) as [s | s].
    + now apply IH.
    + exact P.
Qed.

End SearchOrigin.

Section SearchPlaylistsFurther.

Context {World : Type} {requests : Requests World}.
Variables (query : string) (limit min_tracks min_followers : Z) (w : World).

Lemma search_playlists_origin :
  search_origin (excluded_terms query) min_tracks min_followers
                (snd (search_playlists query limit min_tracks min_followers w)).
Proof.
  unfold search_playlists.
  pose proof (search_passes_origin (excluded_terms query) min_tracks min_followers
                limit (search_variations query) (initial_state w)
                (search_origin_initial _ _ _ w)) as O.
  fold (search_loop query limit min_tracks min_followers w) in O.
  now destruct (search_loop query limit min_tracks min_followers w).
Qed.

(** No playlist in the output is owned by "spotify" or has "setlist" in
    its name (whatever the case), and none with an ASCII name has another
    time of day as a word of its name: every id returned is the id of an
    accepted record whose owner id is not "spotify" and whose name is a
    string that passes the setlist rule and, when it is ASCII, the
    excluded-terms rule. *)
Theorem output_passed_filter (ids : list json) (playlist_id : json) :
  fst (search_playlists query limit min_tracks min_followers w) = Some ids ->
  In playlist_id ids ->
  exists record name,
    In record
       (valid_playlists
          (snd (search_playlists query limit min_tracks min_followers w)))
    /\ Py.getitem record "id" = Some playlist_id
    /\ Py.getitem record "name" = Some (JStr name)
    /\ (is_ascii name = true ->
        excluded_term_rule (excluded_terms query) name = false)
    /\ setlist_rule name = false
    /\ owned_by_spotify record = Some false.
Proof.
  intros H I.
  apply search_playlists_some in H.
  apply rank_some in H as (ranked & P & -> & _).
  apply in_map_iff in I as (record & <- & Ir).
  apply (Permutation_in _ (Permutation_sym P)) in Ir.
  destruct search_playlists_origin as [O1 _ _].
  destruct (search_playlists_inv query limit min_tracks min_followers w)
    as [_ _ I3 _ _].
  rewrite Forall_forall in O1, I3.
  destruct (made_from_passed _ _ _ (O1 record Ir)) as (name & Hn & He & Hs & Ho).
  destruct (I3 record Ir) as (id & _ & _ & Hid & _).
  exists record, name. unfold id_of. rewrite Hid. repeat split; auto.
Qed.

(** The output has one id for each detail fetch that led to acceptance. *)
Theorem output_length_is_accepting_fetches (ids : list json) :
  fst (search_playlists query limit min_tracks min_followers w) = Some ids ->
  List.length ids
  = accepting_fetches min_followers
      (trace (snd (search_playlists query limit min_tracks min_followers w))).
Proof.
  intro H.
  apply search_playlists_some in H.
  apply rank_some in H as (ranked & P & -> & _).
  destruct search_playlists_origin as [_ _ O3].
  rewrite length_map, <- (Permutation_length P). exact O3.
Qed.

End SearchPlaylistsFurther.

Lemma output_passed_filter_witness :
  exists record name,
    Py.getitem record "id" = Some (JStr "p1")
    /\ Py.getitem record "name" = Some (JStr name)
    /\ setlist_rule name = false.
Proof.
  destruct (output_passed_filter
              (requests := Fixture.serve (Fixture.one_playlist 100))
              "morning" 10 10 50 0%nat [JStr "p1"] (JStr "p1") eq_refl
              (or_introl eq_refl))
    as (record & name & _ & Hid & Hn & _ & Hs & _).
  exists record, name. auto.
Defined.

Lemma output_length_is_accepting_fetches_witness :
  List.length [JStr "p1"]
  = accepting_fetches 50
      (trace (snd (search_playlists
                     (requests := Fixture.serve (Fixture.one_playlist 100))
                     "morning" 10 10 50 0%nat))).
Proof.
  exact (output_length_is_accepting_fetches
           (requests := Fixture.serve (Fixture.one_playlist 100))
           "morning" 10 10 50 0%nat [JStr "p1"] eq_refl).
Defined.

(** ** Search requests *)

Lemma search_events_app (t1 t2 : list event) :
  search_events (t1 ++ t2) = (search_events t1 ++ search_events t2)%list.
Proof.
  induction t1 as [|e t1 IH]; [reflexivity |].
  destruct e; simpl; now rewrite IH.
Qed.

Lemma for_each_abort {S A : Type} (body : S -> A -> flow S)
      (done rest : list A) (x : A) (s s1 s2 : S) :
  for_each body done s = Normal s1 ->
  body s1 x = Abort s2 ->
  for_each body (done ++ x :: rest) s = Abort s2.
Proof.
  revert s. induction done as [|y done IH]; simpl; intros s N Ab.
  - injection N as ->. now rewrite Ab.
  - destruct (body s y) as [s' |]; [| discriminate N]. now apply IH.
Qed.

Section SearchRequests.

Context {World : Type} {requests : Requests World}.
Variables (excluded : list string) (limit min_tracks min_followers : Z).

Lemma process_playlist_searches (st : search_state World) (playlist : json) :
  search_events (trace (process_playlist excluded min_tracks min_followers st playlist))
  = search_events (trace st).
Proof.
  unfold process_playlist.
  destruct (candidate excluded min_tracks playlist); try reflexivity.
  destruct (negb (Py.hashable a)); [reflexivity |].
  destruct (Py.set_mem a (seen_playlist_ids st)); [reflexivity |].
  destruct (get_playlist_details a (world st)) as [details w'].
  assert (E : search_events (trace st ++ [Details a details])
              = search_events (trace st)).
  { rewrite search_events_app. simpl. apply app_nil_r. }
  destruct details as [d |]; [| exact E].
  destruct (enrich d min_followers); exact E.
Qed.

Lemma process_all_searches (items : list json) (st : search_state World) :
  search_events
    (trace (fold_left (process_playlist excluded min_tracks min_followers) items st))
  = search_events (trace st).
Proof.
  revert st. induction items as [|p items IH]; intro st; simpl; [reflexivity |].
  now rewrite IH, process_playlist_searches.
Qed.

Lemma search_pass_searches (st : search_state World) (q : string) :
  search_events
    (trace (state_of (search_pass limit min_tracks min_followers excluded st q)))
  = (search_events (trace st) ++ [q])%list.
Proof.
  unfold search_pass.
  destruct (get_search q limit (world st)) as [resp w'].
  assert (E : search_events (trace st ++ [Search q])
              = (search_events (trace st) ++ [q])%list).
  { now rewrite search_events_app. }
  destruct resp as [r |]; [| exact E].
  destruct (raise_for_status r); [| exact E].
  destruct (json_body r) as [playlists |]; [| exact E].
  destruct (raw_items playlists); try exact E.
  simpl. now rewrite process_all_searches.
Qed.

Lemma search_passes_searches (qs : list string) (st : search_state World) :
  exists done rest,
    qs = (done ++ rest)%list
    /\ search_events
         (trace (state_of
                   (for_each (search_pass limit min_tracks min_followers excluded)
                             qs st)))
       = (search_events (trace st) ++ done)%list
    /\ (forall st',
           for_each (search_pass limit min_tracks min_followers excluded) qs st
           = Normal st' -> rest = []).
Proof.
  revert st. induction qs as [|q qs IH]; intro st; simpl.
  - exists [], []. repeat split. now rewrite app_nil_r.
  - pose proof (search_pass_searches st q) as P.
    destruct (search_pass limit min_tracks min_followers excluded st q) as [s | s].
    + destruct (IH s) as (done & rest & -> & E & N).
      exists (q :: done), rest. simpl in P. rewrite E, P, <- app_assoc.
      repeat split. exact N.
    + exists [q], qs. simpl in P |- *. rewrite P.
      repeat split. intros st' H. discriminate H.
Qed.

(** A search answered with a failure makes the pass raise, right after the
    request; any other answer lets the loop go on. *)
Lemma search_pass_failed (st : search_state World) (q : string) :
  search_failed (fst (get_search q limit (world st))) = true ->
  search_pass limit min_tracks min_followers excluded st q
  = Abort {| valid_playlists := valid_playlists st;
             seen_playlist_ids := seen_playlist_ids st;
             world := snd (get_search q limit (world st));
             trace := trace st ++ [Search q] |}.
Proof.
  unfold search_pass, search_failed.
  destruct (get_search q limit (world st)) as [resp w']. simpl. intro F.
  destruct resp as [r |]; [| reflexivity].
  destruct (raise_for_status r); [| reflexivity].
  destruct (json_body r) as [playlists |]; [| reflexivity].
  destruct (raw_items playlists); try discriminate F. reflexivity.
Qed.

Lemma search_pass_not_failed (st : search_state World) (q : string) :
  search_failed (fst (get_search q limit (world st))) = false ->
  exists st', search_pass limit min_tracks min_followers excluded st q = Normal st'.
Proof.
  unfold search_pass, search_failed.
  destruct (get_search q limit (world st)) as [resp w']. simpl. intro F.
  destruct resp as [r |]; [| discriminate F].
  destruct (raise_for_status r); [| discriminate F].
  destruct (json_body r) as [playlists |]; [| discriminate F].
  destruct (raw_items playlists); try discriminate F; eauto.
Qed.

End SearchRequests.

(** [search_playlists] sends its search requests in the order of the four
    variants and never more than those: the queries searched for are the
    first variants, and all four when the call returns. *)
Theorem search_requests_follow_variants
        {World : Type} {requests : Requests World}
        (query : string) (limit min_tracks min_followers : Z) (w : World) :
  exists rest,
    search_variations query
    = (search_events
         (trace (snd (search_playlists query limit min_tracks min_followers w)))
       ++ rest)%list
    /\ (forall ids,
           fst (search_playlists query limit min_tracks min_followers w) = Some ids ->
           rest = []).
Proof.
  destruct (search_passes_searches (excluded_terms query) limit min_tracks
              min_followers (search_variations query) (initial_state w))
    as (done & rest & E & T & N).
  exists rest. unfold search_playlists, search_loop.
  change (search_events (trace (initial_state w)) ++ done)%list with done in T.
  destruct (for_each _ (search_variations query) (initial_state w)) as [s | s];
    cbn [state_of fst snd] in T |- *; rewrite T; (split; [exact E |]).
  - intros ids _. now apply (N s).
  - intros ids H. discriminate H.
Qed.

(** A failed search makes the whole call raise, whatever the earlier
    passes accepted: when the passes for the first variants end normally
    and the next search is answered with a failure, [search_playlists]
    raises right after that request, and the playlists accepted so far are
    not returned. *)
Theorem failed_search_aborts
        {World : Type} {requests : Requests World}
        (query : string) (limit min_tracks min_followers : Z) (w : World)
        (done rest : list string) (q : string) (st : search_state World) :
  search_variations query = (done ++ q :: rest)%list ->
  for_each (search_pass limit min_tracks min_followers (excluded_terms query))
           done (initial_state w) = Normal st ->
  search_failed (fst (get_search q limit (world st))) = true ->
  fst (search_playlists query limit min_tracks min_followers w) = None
  /\ valid_playlists (snd (search_playlists query limit min_tracks min_followers w))
     = valid_playlists st
  /\ trace (snd (search_playlists query limit min_tracks min_followers w))
     = (trace st ++ [Search q])%list.
Proof.
  intros V N F.
  pose proof (search_pass_failed (excluded_terms query) limit min_tracks
                min_followers st q F) as Ab.
  pose proof (for_each_abort _ done rest q _ _ _ N Ab) as L.
  rewrite <- V in L. unfold search_playlists, search_loop. rewrite L.
  repeat split.
Qed.

Lemma failed_search_aborts_witness :
  fst (search_playlists (requests := Fixture.serve Scenario.flaky_search)
                        "morning" 10 10 50 0%nat) = None
  /\ List.length
       (valid_playlists
          (snd (search_playlists (requests := Fixture.serve Scenario.flaky_search)
                                 "morning" 10 10 50 0%nat))) = 1%nat.
Proof.
  destruct (failed_search_aborts
              (requests := Fixture.serve Scenario.flaky_search)
              "morning" 10 10 50 0%nat
              ["morning playlist"] ["morning music"; "morning vibes"] "*morning*"
              (state_of
                 (for_each
                    (search_pass (requests := Fixture.serve Scenario.flaky_search)
                                 10 10 50 (excluded_terms "morning"))
                    ["morning playlist"] (initial_state 0%nat)))
              eq_refl eq_refl eq_refl) as (H1 & H2 & _).
  split; [exact H1 | rewrite H2; reflexivity].
Defined.

(** ** The name rules and the case of the name *)

Lemma lower_char_idem (c : ascii) : Str.lower_char (Str.lower_char c) = Str.lower_char c.
Proof.
  destruct c as [[] [] [] [] [] [] [] []]; reflexivity.
Qed.

Lemma is_word_lower (c : ascii) : Re.is_word_char (Str.lower_char c) = Re.is_word_char c.
Proof.
  destruct c as [[] [] [] [] [] [] [] []]; reflexivity.
Qed.

Lemma lower_idem (s : string) : Str.lower (Str.lower s) = Str.lower s.
Proof.
  induction s as [|c s IH]; simpl; [reflexivity |].
  now rewrite lower_char_idem, IH.
Qed.

Lemma boundary_lower (a b : option ascii) :
  Re.boundary (option_map Str.lower_char a) (option_map Str.lower_char b)
  = Re.boundary a b.
Proof.
  unfold Re.boundary. destruct a, b; simpl; now rewrite ?is_word_lower.
Qed.

Lemma head_lower (s : string) :
  Str.head (Str.lower s) = option_map Str.lower_char (Str.head s).
Proof. now destruct s. Qed.

Lemma literal_ci_lower (term s : string) (prev : option ascii) :
  Re.literal_ci term (Str.lower s) (option_map Str.lower_char prev)
  = option_map (fun p => (option_map Str.lower_char (fst p), Str.lower (snd p)))
               (Re.literal_ci term s prev).
Proof.
  revert s prev. induction term as [|t term IH]; intros s prev; simpl.
  - reflexivity.
  - destruct s as [|c s]; simpl; [reflexivity |].
    rewrite lower_char_idem.
    destruct (Ascii.eqb (Str.lower_char t) (Str.lower_char c)); [| reflexivity].
    apply (IH s (Some c)).
Qed.

Lemma match_here_lower (term s : string) (prev : option ascii) :
  Re.match_here term (option_map Str.lower_char prev) (Str.lower s)
  = Re.match_here term prev s.
Proof.
  unfold Re.match_here.
  rewrite head_lower, boundary_lower, literal_ci_lower.
  destruct (Re.literal_ci term s prev) as [[last rest] |]; simpl; [| reflexivity].
  now rewrite head_lower, boundary_lower.
Qed.

Lemma search_from_lower (term s : string) (prev : option ascii) :
  Re.search_from term (option_map Str.lower_char prev) (Str.lower s)
  = Re.search_from term prev s.
Proof.
  revert prev. induction s as [|c s IH]; intro prev.
  - change (Str.lower "") with "". cbn [Re.search_from].
    now rewrite <- (match_here_lower term "" prev).
  - cbn [Str.lower Re.search_from].
    rewrite <- (IH (Some c)).
    now rewrite <- (match_here_lower term (String c s) prev).
Qed.

(** The name rules do not look at the case of an ASCII name: two ASCII
    names that differ only in case are both rejected or both let through,
    by the excluded-terms rule and by the setlist rule. *)
Theorem name_rules_ignore_case (excluded : list string) (name1 name2 : string) :
  is_ascii name1 = true ->
  is_ascii name2 = true ->
  Str.lower name1 = Str.lower name2 ->
  excluded_term_rule excluded name1 = excluded_term_rule excluded name2
  /\ setlist_rule name1 = setlist_rule name2.
Proof.
  intros _ _ E. split.
  - unfold excluded_term_rule.
    assert (L : forall name term,
               Re.search_word term name = Re.search_word term (Str.lower name)).
    { intros name term. unfold Re.search_word.
      now rewrite <- (search_from_lower term name None). }
    induction excluded as [|term excluded IH]; [reflexivity |].
    cbn [existsb]. now rewrite IH, (L name1), (L name2), E.
  - unfold setlist_rule. now rewrite E.
Qed.

Lemma name_rules_ignore_case_witness :
  excluded_term_rule (excluded_terms "morning") "late NIGHT jazz"
  = excluded_term_rule (excluded_terms "morning") "Late Night Jazz".
Proof.
  exact (proj1 (name_rules_ignore_case (excluded_terms "morning")
                  "late NIGHT jazz" "Late Night Jazz" eq_refl eq_refl eq_refl)).
Defined.

(** ** Whole words *)

Lemma last_char_cons (c d : ascii) (r : string) :
  last_char (String c (String d r)) = last_char (String d r).
Proof. reflexivity. Qed.

Lemma last_char_some (d : ascii) (r : string) :
  exists c, last_char (String d r) = Some c.
Proof.
  revert d. induction r as [|e r IH]; intro d.
  - now exists d.
  - rewrite last_char_cons. apply IH.
Qed.

Lemma last_or_cons (prev : option ascii) (c : ascii) (r : string) :
  last_or prev (String c r) = last_or (Some c) r.
Proof.
  unfold last_or. destruct r as [|d r]; [reflexivity |].
  rewrite last_char_cons. now destruct (last_char_some d r) as [x ->].
Qed.

Lemma search_from_skip (term pre rest : string) (prev : option ascii) :
  Re.search_from term (last_or prev pre) rest = true ->
  Re.search_from term prev (pre ++ rest) = true.
Proof.
  revert prev. induction pre as [|c pre IH]; intros prev H.
  - exact H.
  - rewrite last_or_cons in H.
    change (Re.search_from term prev (String c pre ++ rest))
      with (Re.match_here term prev (String c (pre ++ rest))
            || Re.search_from term (Some c) (pre ++ rest)).
    rewrite (IH (Some c) H). apply orb_true_r.
Qed.

Lemma literal_ci_occurrence (term occ post : string) (prev : option ascii) :
  Str.lower occ = Str.lower term ->
  Re.literal_ci term (occ ++ post) prev = Some (last_or prev occ, post).
Proof.
  revert occ prev. induction term as [|t term IH]; intros occ prev E.
  - destruct occ; [reflexivity | discriminate E].
  - destruct occ as [|o occ]; [discriminate E |].
    cbn [Str.lower] in E. injection E as Eo E.
    cbn [append Re.literal_ci]. rewrite Eo, Ascii.eqb_refl, last_or_cons.
    now apply IH.
Qed.

Lemma literal_ci_inv (term s rest : string) (prev last : option ascii) :
  Re.literal_ci term s prev = Some (last, rest) ->
  exists occ,
    s = occ ++ rest /\ Str.lower occ = Str.lower term /\ last = last_or prev occ.
Proof.
  revert s prev. induction term as [|t term IH]; intros s prev H.
  - injection H as <- <-. now exists "".
  - destruct s as [|c s]; [discriminate H |]. cbn [Re.literal_ci] in H.
    destruct (Ascii.eqb (Str.lower_char t) (Str.lower_char c)) eqn:E;
      [| discriminate H].
    apply Ascii.eqb_eq in E.
    destruct (IH s (Some c) H) as (occ & -> & L & ->).
    exists (String c occ). cbn [append Str.lower].
    now rewrite last_or_cons, L, E.
Qed.

(** The search at an occurrence of the literal between two boundaries. *)
Lemma search_word_at_occurrence
      (excluded : list string) (term pre occ post : string) :
  Str.lower occ = Str.lower term ->
  Re.is_word (Str.head occ) = true ->
  Re.is_word (last_char occ) = true ->
  Re.is_word (last_char pre) = false ->
  Re.is_word (Str.head post) = false ->
  Re.search_word term (pre ++ occ ++ post) = true
  /\ (In term excluded -> excluded_term_rule excluded (pre ++ occ ++ post) = true).
Proof.
  intros E Hh Hl Hpre Hpost.
  assert (S : Re.search_word term (pre ++ occ ++ post) = true).
  { unfold Re.search_word. apply search_from_skip.
    assert (B : Re.is_word (last_or None pre) = false).
    { unfold last_or. destruct (last_char pre); [exact Hpre | reflexivity]. }
    destruct occ as [|o occ]; [discriminate Hh |].
    cbn [append Re.search_from]. apply orb_true_iff. left.
    unfold Re.match_here.
    change (String o (occ ++ post)) with (String o occ ++ post).
    rewrite literal_ci_occurrence by exact E.
    unfold Re.boundary. cbn [Str.head append]. rewrite B.
    cbn [Str.head] in Hh. rewrite Hh, Hpost.
    unfold last_or. destruct (last_char (String o occ)); [| discriminate Hl].
    now rewrite Hl. }
  split; [exact S |].
  intro I. apply existsb_exists. now exists term.
Qed.

Lemma all_word_no_later_match (term s : string) (prev : option ascii) :
  term <> "" ->
  Re.is_word prev = true ->
  all_word s = true ->
  Re.search_from term prev s = false.
Proof.
  intros N. revert prev. induction s as [|c s IH]; intros prev P A.
  - cbn [Re.search_from]. unfold Re.match_here.
    destruct term; [congruence |]. cbn [Re.literal_ci].
    now rewrite andb_false_r.
  - cbn [all_word] in A. apply andb_true_iff in A as [Ac As].
    cbn [Re.search_from]. unfold Re.match_here, Re.boundary.
    cbn [Str.head Re.is_word]. rewrite P, Ac. cbn [xorb andb orb].
    apply IH; [exact Ac | exact As].
Qed.

Lemma all_word_app (s1 s2 : string) :
  all_word (s1 ++ s2) = all_word s1 && all_word s2.
Proof.
  induction s1 as [|c s1 IH]; simpl; [reflexivity |].
  now rewrite IH, andb_assoc.
Qed.

Lemma all_word_head (s : string) :
  all_word s = true -> s <> "" -> Re.is_word (Str.head s) = true.
Proof.
  destruct s as [|c s]; [congruence |]. simpl. intros A _.
  now apply andb_true_iff in A as [A _].
Qed.

Lemma all_word_last_or (prev : option ascii) (s : string) :
  all_word s = true ->
  Re.is_word prev = true \/ s <> "" ->
  Re.is_word (last_or prev s) = true.
Proof.
  revert prev. induction s as [|c s IH]; intros prev A H.
  - destruct H as [H | H]; [exact H | congruence].
  - cbn [all_word] in A. apply andb_true_iff in A as [Ac As].
    rewrite last_or_cons. apply IH; [exact As | now left].
Qed.

(** The search in a text of word characters only. *)
Lemma search_word_in_single_word (term name : string) :
  term <> "" ->
  all_word name = true ->
  Re.search_word term name = true ->
  Str.lower name = Str.lower term.
Proof.
  intros N A S. unfold Re.search_word in S.
  destruct name as [|c name].
  - cbn [Re.search_from] in S. unfold Re.match_here in S.
    destruct term; [congruence |]. cbn in S. discriminate S.
  - cbn [Re.search_from] in S.
    pose proof A as A'. cbn [all_word] in A'.
    apply andb_true_iff in A' as [Ac An].
    rewrite (all_word_no_later_match term name (Some c) N Ac An) in S.
    rewrite orb_false_r in S. unfold Re.match_here in S.
    apply andb_true_iff in S as [_ S].
    destruct (Re.literal_ci term (String c name) None) as [[last rest] |] eqn:L;
      [| discriminate S].
    destruct (literal_ci_inv _ _ _ _ _ L) as (occ & E & Lo & ->).
    rewrite E in A. rewrite all_word_app in A.
    apply andb_true_iff in A as [Aocc Arest].
    destruct rest as [|r rest].
    + rewrite E. rewrite <- Lo. f_equal.
      clear. induction occ as [|o occ IH]; [reflexivity |]. simpl. now rewrite IH.
    + exfalso.
      assert (Hr : Re.is_word (Str.head (String r rest)) = true)
        by (apply all_word_head; [exact Arest | discriminate]).
      assert (Ho : Re.is_word (last_or None occ) = true).
      { apply all_word_last_or; [exact Aocc |]. right. intros ->.
        destruct term; [congruence | discriminate Lo]. }
      unfold Re.boundary in S. rewrite Ho, Hr in S. discriminate S.
Qed.


(** ** Full batches *)

Section FullChunks.

Context {A : Type}.
Variable size : nat.
Hypothesis size_pos : (0 < size)%nat.

Lemma chunks_nonempty (l : list A) : chunks size l <> [] -> l <> [].
Proof.
  intros N E. subst l. now rewrite chunks_nil in N.
Qed.

Lemma chunks_full (l : list A) (i : nat) (b : list A) :
  nth_error (chunks size l) i = Some b ->
  (S i < List.length (chunks size l))%nat ->
  List.length b = size.
Proof.
  remember (List.length l) as n eqn:E. revert l E i b.
  induction n as [n IH] using lt_wf_ind. intros l E i b H L.
  destruct l as [|x l]; [rewrite chunks_nil in L by exact size_pos; simpl in L; lia |].
  rewrite chunks_step in H, L by (exact size_pos || discriminate).
  destruct i as [|i]; cbn [nth_error List.length] in H, L.
  - injection H as <-. rewrite length_firstn.
    assert (N : skipn size (x :: l) <> []).
    { apply chunks_nonempty. intro Z. rewrite Z in L. simpl in L. lia. }
    assert (P : (0 < List.length (skipn size (x :: l)))%nat).
    { destruct (skipn size (x :: l)); [congruence | simpl; lia]. }
    rewrite length_skipn in P. lia.
  - apply (IH (List.length (skipn size (x :: l)))) with (l := skipn size (x :: l)) (i := i);
      [| reflexivity | exact H | lia].
    rewrite length_skipn. subst n. cbn [List.length]. lia.
Qed.

End FullChunks.

(** Only the last batch can be short: every batch of [get_track_genres]
    but the last has exactly 50 artist references. *)
Theorem batches_full_but_last (artist_ids : list artist_ref) (i : nat)
        (batch : list artist_ref) :
  nth_error (batches artist_ids) i = Some batch ->
  (S i < List.length (batches artist_ids))%nat ->
  List.length batch = 50%nat.
Proof.
  change (batches artist_ids) with (chunks 50 artist_ids).
  apply chunks_full. lia.
Qed.

Lemma batches_full_but_last_witness :
  List.length (firstn 50 (Fixture.many_refs 120)) = 50%nat.
Proof.
  exact (batches_full_but_last (Fixture.many_refs 120) 0
           (firstn 50 (Fixture.many_refs 120)) eq_refl
           ltac:(vm_compute; lia)).
Defined.

(** ** The track list *)

Section TrackList.

Context {World : Type} {requests : Requests World}.
Variables (playlist_id : string) (w : World).

(** The state [get_track_genres] is in once the track list is fetched. *)
Local Abbreviation fetched_state w1 :=
  {| genres := []; genre_world := w1; genre_trace := [Tracks playlist_id] |}.

(** A track-list request that fails is fatal: when it gets no answer, a
    4xx or 5xx status or a body that is not JSON, [get_track_genres]
    raises, and no bulk lookup is made. *)
Theorem failed_track_list_raises :
  tracks_failed (fst (get_tracks playlist_id w)) = true ->
  get_track_genres playlist_id w
  = (None, fetched_state (snd (get_tracks playlist_id w))).
Proof.
  unfold get_track_genres, get_playlist_tracks, tracks_failed.
  destruct (get_tracks playlist_id w) as [resp w1]. simpl. intro F.
  destruct resp as [r |]; [| reflexivity].
  destruct (raise_for_status r); [| reflexivity].
  destruct (json_body r); [discriminate F | reflexivity].
Qed.

(** Only the first 200 items count: with more than 200 items in the track
    list, the call is what the batch loop makes of the artists of the
    first 200, whatever the other items are. *)
Theorem items_past_200_ignored
        (w1 : World) (fields : list (string * json)) (shown extra : list json) :
  get_playlist_tracks playlist_id w = (Some (JObj fields), w1) ->
  Py.lookup "items" fields = Some (JArr (shown ++ extra)) ->
  List.length shown = 200%nat ->
  get_track_genres playlist_id w
  = match collect_artists shown with
    | None => (None, fetched_state w1)
    | Some artist_ids =>
        match for_each process_batch (batches artist_ids) (fetched_state w1) with
        | Normal st => (Some (genres st), st)
        | Abort st => (None, st)
        end
    end.
Proof.
  intros G L N. unfold get_track_genres. rewrite G.
  destruct fields as [|kv fields]; [discriminate L |].
  cbn [Py.truthy negb Py.contains]. rewrite L.
  unfold playlist_artists, exn_bind. cbn [Py.getitem]. rewrite L.
  cbn [first_200].
  rewrite firstn_app, N, Nat.sub_diag, firstn_O, app_nil_r.
  rewrite <- N, firstn_all. reflexivity.
Qed.

Lemma collect_artists_raises (items : list json) (item : json) :
  In item items -> item_artists item = Raised -> collect_artists items = None.
Proof.
  intros I R. induction items as [|x items IH]; [destruct I |].
  cbn [collect_artists]. destruct I as [-> | I].
  - now rewrite R.
  - rewrite (IH I). now destruct (item_artists x).
Qed.

Lemma track_artists_raises (track_name : json) (artists : list json) (a : json) :
  In a artists ->
  Py.contains "id" a = Some true ->
  Py.getitem a "name" = None ->
  track_artists track_name artists = None.
Proof.
  intros I C N. induction artists as [|x artists IH]; [destruct I |].
  cbn [track_artists]. unfold exn_bind. destruct I as [-> | I].
  - now rewrite C, N.
  - rewrite (IH I).
    destruct (Py.contains "id" x) as [[|] |]; try reflexivity.
    destruct (Py.getitem x "name"); [| reflexivity].
    now destruct (Py.getitem x "id").
Qed.

(** Nothing is caught in [get_track_genres]: one artist entry, among the
    first 200 items, that has an ["id"] and no ["name"] makes the whole
    call raise, before any bulk lookup. *)
Theorem artist_without_name_raises
        (w1 : World) (fields track_fields : list (string * json))
        (items artists : list json) (item artist : json) :
  get_playlist_tracks playlist_id w = (Some (JObj fields), w1) ->
  Py.lookup "items" fields = Some (JArr items) ->
  In item (firstn 200 items) ->
  Py.get item "track" JNull = Some (JObj track_fields) ->
  Py.lookup "artists" track_fields = Some (JArr artists) ->
  In artist artists ->
  Py.contains "id" artist = Some true ->
  Py.getitem artist "name" = None ->
  get_track_genres playlist_id w = (None, fetched_state w1).
Proof.
  intros G L I T A Ia C N. unfold get_track_genres. rewrite G.
  destruct fields as [|kv fields]; [discriminate L |].
  cbn [Py.truthy negb Py.contains]. rewrite L.
  unfold playlist_artists, exn_bind. cbn [Py.getitem]. rewrite L.
  cbn [first_200].
  rewrite (collect_artists_raises _ item I); [reflexivity |].
  unfold item_artists. rewrite T.
  destruct track_fields as [|tf track_fields]; [discriminate A |].
  cbn [step_bind try continue_if Py.truthy negb Py.get]. rewrite A.
  cbn [try step_bind Py.iterate].
  now rewrite (track_artists_raises _ artists artist Ia C N).
Qed.

End TrackList.

Lemma failed_track_list_raises_witness :
  fst (get_track_genres
         (requests := Fixture.serve (Fixture.track_response Fixture.not_found))
         "pl" 0%nat) = None.
Proof.
  exact (f_equal fst
           (failed_track_list_raises
              (requests := Fixture.serve (Fixture.track_response Fixture.not_found))
              "pl" 0%nat eq_refl)).
Defined.

Lemma items_past_200_ignored_witness :
  fst (get_track_genres
         (requests :=
            Fixture.serve
              (Fixture.track_response
                 (Fixture.ok (Fixture.track_list
                                (repeat (Fixture.track "T" []) 200 ++ [JNum 7])))))
         "pl" 0%nat) = Some [].
Proof.
  exact (f_equal fst
           (items_past_200_ignored
              (requests :=
                 Fixture.serve
                   (Fixture.track_response
                      (Fixture.ok (Fixture.track_list
                                     (repeat (Fixture.track "T" []) 200 ++ [JNum 7])))))
              "pl" 0%nat 0%nat
              [("items", JArr (repeat (Fixture.track "T" []) 200 ++ [JNum 7]))]
              (repeat (Fixture.track "T" []) 200) [JNum 7]
              eq_refl eq_refl eq_refl)).
Defined.

Lemma artist_without_name_raises_witness :
  fst (get_track_genres (requests := Fixture.serve Scenario.unnamed_artist)
                        "pl" 0%nat) = None.
Proof.
  refine (f_equal fst
            (artist_without_name_raises
               (requests := Fixture.serve Scenario.unnamed_artist)
               "pl" 0%nat 0%nat
               [("items",
                 JArr [JObj [("track",
                              JObj [("name", JStr "Song");
                                    ("artists", JArr [JObj [("id", JStr "a1")]])])]])]
               [("name", JStr "Song"); ("artists", JArr [JObj [("id", JStr "a1")]])]
               _ [JObj [("id", JStr "a1")]] _ (JObj [("id", JStr "a1")])
               eq_refl eq_refl (or_introl eq_refl) eq_refl eq_refl
               (or_introl eq_refl) eq_refl eq_refl)).
Defined.

(** ** Bulk lookups that fail *)

Section FailedLookups.

Context {World : Type} {requests : Requests World}.

(** Every bulk lookup is answered, with a status other than 200 and 429. *)
Hypothesis lookups_fail :
  forall ids w0, exists r w',
    get_artists ids w0 = (Some r, w')
    /\ status_code r <> 200 /\ status_code r <> 429.

Lemma process_batch_failed (st : genre_state World) (batch : list artist_ref)
      (ids : string) :
  artist_id_str batch = Some ids ->
  exists st',
    process_batch st batch = Normal st'
    /\ genres st' = genres st
    /\ genre_trace st' = (genre_trace st ++ [Artists ids])%list.
Proof.
  intro I. unfold process_batch. rewrite I.
  destruct (lookups_fail ids (genre_world st)) as (r & w' & -> & N200 & N429).
  apply Z.eqb_neq in N200, N429. rewrite N429, N200.
  eexists. repeat split.
Qed.

Lemma batch_loop_failed (bs : list (list artist_ref)) (calls : list string)
      (st : genre_state World) :
  map_exn artist_id_str bs = Some calls ->
  exists st',
    for_each process_batch bs st = Normal st'
    /\ genres st' = genres st
    /\ genre_trace st' = (genre_trace st ++ map Artists calls)%list.
Proof.
  revert calls st. induction bs as [|b bs IH]; intros calls st M; simpl in M |- *.
  - injection M as <-. exists st. now rewrite app_nil_r.
  - destruct (artist_id_str b) as [ids |] eqn:I; [| discriminate M].
    destruct (map_exn artist_id_str bs) as [rest |]; [| discriminate M].
    injection M as <-.
    destruct (process_batch_failed st b ids I) as (s & -> & G & T).
    destruct (IH rest s eq_refl) as (st' & L & G' & T').
    exists st'. rewrite L, G', G, T', T, <- app_assoc. repeat split.
Qed.

(** An HTTP error of the bulk lookup is not fatal and is not reported:
    when every lookup is answered with a status other than 200 and 429,
    [get_track_genres] still makes one lookup per batch and returns the
    empty mapping. *)
Theorem failed_lookups_give_empty_map
        (playlist_id : string) (w w1 : World) (playlist_tracks : json)
        (artist_ids : list artist_ref) (calls : list string) :
  get_playlist_tracks playlist_id w = (Some playlist_tracks, w1) ->
  Py.truthy playlist_tracks = true ->
  Py.contains "items" playlist_tracks = Some true ->
  playlist_artists playlist_tracks = Some artist_ids ->
  map_exn artist_id_str (batches artist_ids) = Some calls ->
  fst (get_track_genres playlist_id w) = Some []
  /\ genre_trace (snd (get_track_genres playlist_id w))
     = Tracks playlist_id :: map Artists calls.
Proof.
  intros G T C P M. unfold get_track_genres. rewrite G, T, C, P. cbn [negb].
  destruct (batch_loop_failed (batches artist_ids) calls
              {| genres := []; genre_world := w1;
                 genre_trace := [Tracks playlist_id] |} M)
    as (st' & -> & Gs & Ts).
  cbn [fst snd]. rewrite Gs, Ts. split; reflexivity.
Qed.

End FailedLookups.

Lemma failed_lookups_give_empty_map_witness :
  fst (get_track_genres (requests := Fixture.serve Scenario.lookups_fail)
                        "pl" 0%nat) = Some []
  /\ genre_trace
       (snd (get_track_genres (requests := Fixture.serve Scenario.lookups_fail)
                              "pl" 0%nat))
     = [Tracks "pl"; Artists "a1,a2"].
Proof.
  refine (failed_lookups_give_empty_map
            (requests := Fixture.serve Scenario.lookups_fail) _
            "pl" 0%nat 0%nat
            (Fixture.track_list [Fixture.track "One" [Fixture.artist "a1" "Ann"];
                                 Fixture.track "Two" [Fixture.artist "a2" "Bob"]])
            [{| ref_name := JStr "Ann"; ref_id := JStr "a1"; ref_track := JStr "One" |};
             {| ref_name := JStr "Bob"; ref_id := JStr "a2"; ref_track := JStr "Two" |}]
            ["a1,a2"] eq_refl eq_refl eq_refl eq_refl eq_refl).
  intros ids w0.
  exists {| status_code := 500; retry_after_header := None; json_body := None |},
         (S w0).
  split; [reflexivity | split; discriminate].
Defined.

(** ** The keys of the genre map *)

Lemma dict_set_keys {V : Type} (k : json) (v : V) (d : list (json * V)) (x : json) :
  In x (map fst (Py.dict_set k v d)) -> x = k \/ In x (map fst d).
Proof.
  induction d as [|[k' v'] d IH]; simpl.
  - intros [<- | []]. now left.
  - destruct (Py.eq k' k); simpl.
    + intros [<- | I]; right; [now left | now right].
    + intros [<- | I]; [right; now left |].
      destruct (IH I) as [-> | I']; [now left | right; now right].
Qed.

Lemma assign_genres_keys (artist_id artist_genres : json) (batch : list artist_ref)
      (g g' : list (json * json)) (x : json) :
  assign_genres artist_id artist_genres batch g = Some g' ->
  In x (genre_keys g') ->
  In x (genre_keys g) \/ In x (map ref_track batch).
Proof.
  revert g. induction batch as [|r batch IH]; simpl; intros g H I.
  - injection H as <-. now left.
  - destruct (Py.eq (ref_id r) artist_id).
    + destruct (Py.hashable (ref_track r)); [| discriminate H].
      destruct (IH _ H I) as [K | K]; [| right; now right].
      apply dict_set_keys in K as [-> | K]; [right; now left | now left].
    + destruct (IH _ H I) as [K | K]; [now left | right; now right].
Qed.

Lemma resolve_artists_keys (data : list json) (batch : list artist_ref)
      (g g' : list (json * json)) (x : json) :
  resolve_artists data batch g = Some g' ->
  In x (genre_keys g') ->
  In x (genre_keys g) \/ In x (map ref_track batch).
Proof.
  revert g. induction data as [|artist data IH]; intros g H I.
  - injection H as <-. now left.
  - assert (Step :
      (_ <- Py.get artist "name" (JStr "Unknown Artist") ;;
       artist_genres <- Py.get artist "genres" (JArr []) ;;
       artist_id <- Py.get artist "id" JNull ;;
       genres' <- assign_genres artist_id artist_genres batch g ;;
       resolve_artists data batch genres')%exn = Some g' ->
      In x (genre_keys g) \/ In x (map ref_track batch)).
    { unfold exn_bind. intro S.
      destruct (Py.get artist "name" _); [| discriminate S].
      destruct (Py.get artist "genres" _) as [ag |]; [| discriminate S].
      destruct (Py.get artist "id" JNull) as [aid |]; [| discriminate S].
      destruct (assign_genres aid ag batch g) as [g1 |] eqn:A; [| discriminate S].
      destruct (IH _ S I) as [K | K]; [| now right].
      now apply (assign_genres_keys _ _ _ _ _ x A). }
    destruct artist; cbn [resolve_artists] in H; try (now apply Step).
    now apply (IH g).
Qed.

Section GenreKeys.

Context {World : Type} {requests : Requests World}.

Lemma process_batch_keys (st st' : genre_state World) (batch : list artist_ref)
      (x : json) :
  process_batch st batch = Normal st' ->
  In x (genre_keys (genres st')) ->
  In x (genre_keys (genres st)) \/ In x (map ref_track batch).
Proof.
  unfold process_batch. intros H I.
  destruct (artist_id_str batch) as [ids |]; [| discriminate H].
  destruct (get_artists ids (genre_world st)) as [resp w'].
  destruct resp as [r |]; [| discriminate H].
  destruct (status_code r =? 429).
  - destruct (retry_after r) as [s |]; [| discriminate H].
    destruct (s <? 0); [discriminate H |].
    injection H as <-. now left.
  - destruct (status_code r =? 200).
    + unfold exn_bind in H.
      destruct (json_body r) as [body |]; [| discriminate H].
      destruct (Py.getitem body "artists") as [data |]; [| discriminate H].
      destruct (Py.iterate data) as [artists |]; [| discriminate H].
      destruct (resolve_artists artists batch (genres st)) as [g' |] eqn:R;
        [| discriminate H].
      injection H as <-. now apply (resolve_artists_keys _ _ _ _ x R).
    + injection H as <-. now left.
Qed.

Lemma batch_loop_keys (bs : list (list artist_ref)) (st st' : genre_state World)
      (x : json) :
  for_each process_batch bs st = Normal st' ->
  In x (genre_keys (genres st')) ->
  In x (genre_keys (genres st)) \/ In x (map ref_track (List.concat bs)).
Proof.
  revert st. induction bs as [|b bs IH]; simpl; intros st H I.
  - injection H as <-. now left.
  - destruct (process_batch st b) as [s |] eqn:P; [| discriminate H].
    rewrite map_app, in_app_iff.
    destruct (IH _ H I) as [K | K]; [| right; now right].
    destruct (process_batch_keys _ _ _ x P K) as [K' | K']; [now left |].
    right. now left.
Qed.

End GenreKeys.

Lemma item_artists_track (item : json) (refs : list artist_ref) :
  item_artists item = Next refs ->
  exists track name,
    Py.get item "track" JNull = Some track
    /\ Py.get track "name" JNull = Some name
    /\ Forall (fun r => ref_track r = name) refs.
Proof.
  unfold item_artists, step_bind, try, continue_if. intro H.
  destruct (Py.get item "track" JNull) as [track |]; [| discriminate H].
  destruct (negb (Py.truthy track)); [discriminate H |].
  destruct (Py.get track "name" JNull) as [name |] eqn:N; [| discriminate H].
  destruct (Py.get track "artists" (JArr [])) as [artists |]; [| discriminate H].
  destruct (Py.iterate artists) as [l |]; [| discriminate H].
  destruct (track_artists name l) as [rs |] eqn:T; [| discriminate H].
  injection H as <-. exists track, name.
  split; [reflexivity | split; [exact N |]].
  now apply (track_artists_track _ l).
Qed.

Lemma collect_artists_tracks (items : list json) (refs : list artist_ref)
      (x : json) :
  collect_artists items = Some refs ->
  In x (map ref_track refs) ->
  exists item track,
    In item items
    /\ Py.get item "track" JNull = Some track
    /\ Py.get track "name" JNull = Some x.
Proof.
  revert refs. induction items as [|item items IH]; simpl; intros refs H I.
  - injection H as <-. destruct I.
  - destruct (item_artists item) as [rs | |] eqn:A; [| | discriminate H].
    + destruct (collect_artists items) as [rest |]; [| discriminate H].
      injection H as <-. rewrite map_app, in_app_iff in I.
      destruct I as [I | I].
      * destruct (item_artists_track _ _ A) as (track & name & Ht & Hn & F).
        apply in_map_iff in I as (r & <- & Ir).
        rewrite Forall_forall in F. rewrite (F r Ir).
        exists item, track. repeat split; auto.
      * destruct (IH rest eq_refl I) as (it & track & Ii & Ht & Hn).
        exists it, track. repeat split; auto.
    + destruct (IH refs H I) as (it & track & Ii & Ht & Hn).
      exists it, track. repeat split; auto.
Qed.

(** Every key of the mapping [get_track_genres] returns is the name of
    the track of one of the first 200 items of the track list
    ([track.get("name")], so [None] for a track without a name). *)
Theorem genre_keys_are_track_names
        {World : Type} {requests : Requests World}
        (playlist_id : string) (w w1 : World) (playlist_tracks : json)
        (g : list (json * json)) (key : json) :
  get_playlist_tracks playlist_id w = (Some playlist_tracks, w1) ->
  fst (get_track_genres playlist_id w) = Some g ->
  In key (genre_keys g) ->
  exists items shown item track,
    Py.getitem playlist_tracks "items" = Some items
    /\ first_200 items = Some shown
    /\ In item shown
    /\ Py.get item "track" JNull = Some track
    /\ Py.get track "name" JNull = Some key.
Proof.
  intros G R I. unfold get_track_genres in R. rewrite G in R.
  destruct (negb (Py.truthy playlist_tracks)).
  { injection R as <-. destruct I. }
  destruct (Py.contains "items" playlist_tracks) as [[|] |];
    [| injection R as <-; destruct I | discriminate R].
  destruct (playlist_artists playlist_tracks) as [refs |] eqn:P; [| discriminate R].
  destruct (for_each process_batch (batches refs) _) as [st | st] eqn:L;
    [| discriminate R].
  injection R as <-.
  destruct (batch_loop_keys _ _ _ key L I) as [[] | K].
  change (batches refs) with (chunks 50 refs) in K.
  rewrite chunks_concat in K by lia.
  unfold playlist_artists, exn_bind in P.
  destruct (Py.getitem playlist_tracks "items") as [items |] eqn:Ei;
    [| discriminate P].
  destruct (first_200 items) as [shown |] eqn:Es; [| discriminate P].
  destruct (collect_artists_tracks _ _ key P K) as (item & track & Ii & Ht & Hn).
  exists items, shown, item, track. repeat split; assumption.
Qed.

Lemma genre_keys_are_track_names_witness :
  exists item track,
    Py.get item "track" JNull = Some track
    /\ Py.get track "name" JNull = Some (JStr "Two").
Proof.
  destruct (genre_keys_are_track_names
              (requests := Fixture.serve Scenario.two_tracks)
              "pl" 0%nat 0%nat
              (Fixture.track_list [Fixture.track "One" [Fixture.artist "a1" "Ann"];
                                   Fixture.track "Two" [Fixture.artist "a2" "Bob"]])
              [(JStr "One", JArr [JStr "rock"]); (JStr "Two", JArr [JStr "jazz"])]
              (JStr "Two") eq_refl eq_refl (or_intror (or_introl eq_refl)))
    as (items & shown & item & track & _ & _ & _ & Ht & Hn).
  exists item, track. auto.
Defined.

(** ** The delay of a rate-limited lookup *)

(** A header that begins with anything but white space, a sign or a digit
    (an HTTP date, say) is not an integer for [int]. *)
Lemma of_str_rejects (c : ascii) (text : string) :
  Int.is_space c = false ->
  Int.is_digit c = false ->
  c <> "+"%char ->
  c <> "-"%char ->
  Int.of_str (String c text) = None.
Proof.
  intros S D P M.
  destruct c as [[] [] [] [] [] [] [] []];
    try discriminate S; try discriminate D; try congruence; reflexivity.
Qed.



(** What [int] makes of some headers. *)
Example int_of_headers :
  Int.of_str "5" = Some 5
  /\ Int.of_str " 120 " = Some 120
  /\ Int.of_str (String (ascii_of_N 160) "5") = Some 5
  /\ Int.of_str (String (ascii_of_N 28) "5") = None
  /\ Int.of_str "-5" = Some (-5)
  /\ Int.of_str "1_000" = Some 1000
  /\ Int.of_str "1.5" = None
  /\ Int.of_str "120s" = None
  /\ Int.of_str "" = None
  /\ Int.of_str "Wed, 21 Oct 2015 07:28:00 GMT" = None.
Proof. repeat split; reflexivity. Qed.

(** ** The artists of a lookup response *)

(** [None] entries in the response of a bulk lookup are skipped: the loop
    over the response gives what it gives on the response without them. *)
Theorem null_artists_are_skipped (data : list json) (batch : list artist_ref)
        (g : list (json * json)) :
  resolve_artists data batch g
  = resolve_artists (filter (fun a => negb (is_null a)) data) batch g.
Proof.
  revert g. induction data as [|artist data IH]; intro g; [reflexivity |].
  destruct artist; cbn [filter is_null negb resolve_artists]; [apply IH | ..];
    unfold exn_bind;
    repeat match goal with
      | |- match ?x with _ => _ end = match ?x with _ => _ end =>
          destruct x; [| reflexivity]
      end; apply IH.
Qed.

Lemma dict_get_set_same {V : Type} (k : json) (v : V) (d : list (json * V)) :
  Py.hashable k = true -> dict_get k (Py.dict_set k v d) = Some v.
Proof.
  intro H. induction d as [|[k' v'] d IH]; simpl.
  - now rewrite py_eq_refl.
  - destruct (Py.eq k' k) eqn:E; simpl; rewrite E; [reflexivity | exact IH].
Qed.

Lemma dict_get_set_kept {V : Type} (k k2 : json) (v : V) (d : list (json * V)) :
  dict_get k d = Some v -> dict_get k (Py.dict_set k2 v d) = Some v.
Proof.
  induction d as [|[k' v'] d IH]; simpl; [discriminate |].
  destruct (Py.eq k' k) eqn:E; intro H.
  - destruct (Py.eq k' k2); simpl; rewrite E; [reflexivity | exact H].
  - destruct (Py.eq k' k2); simpl; rewrite E; [exact H | now apply IH].
Qed.

Lemma assign_genres_kept (artist_id artist_genres : json) (batch : list artist_ref)
      (g g' : list (json * json)) (k : json) :
  assign_genres artist_id artist_genres batch g = Some g' ->
  dict_get k g = Some artist_genres ->
  dict_get k g' = Some artist_genres.
Proof.
  revert g. induction batch as [|r batch IH]; simpl; intros g H K.
  - now injection H as <-.
  - destruct (Py.eq (ref_id r) artist_id).
    + destruct (Py.hashable (ref_track r)); [| discriminate H].
      apply (IH _ H). now apply dict_get_set_kept.
    + now apply (IH g).
Qed.

(** After the loop of lines 233 to 235 for one artist of the response,
    the track of every reference of the batch whose id equals the
    artist's id maps to the artist's genres. *)
Theorem matching_references_get_genres
        (artist_id artist_genres : json) (batch : list artist_ref)
        (g g' : list (json * json)) (r : artist_ref) :
  assign_genres artist_id artist_genres batch g = Some g' ->
  In r batch ->
  Py.eq (ref_id r) artist_id = true ->
  dict_get (ref_track r) g' = Some artist_genres.
Proof.
  revert g. induction batch as [|x batch IH]; simpl; intros g H I E; [destruct I |].
  destruct I as [-> | I].
  - rewrite E in H.
    destruct (Py.hashable (ref_track r)) eqn:Hash; [| discriminate H].
    apply (assign_genres_kept _ _ _ _ _ _ H).
    now apply dict_get_set_same.
  - destruct (Py.eq (ref_id x) artist_id).
    + destruct (Py.hashable (ref_track x)); [| discriminate H].
      now apply (IH _ H).
    + now apply (IH g).
Qed.

Lemma matching_references_get_genres_witness :
  dict_get (JStr "One")
           [(JStr "One", JArr [JStr "rock"]); (JStr "Two", JArr [JStr "rock"])]
  = Some (JArr [JStr "rock"]).
Proof.
  exact (matching_references_get_genres
           (JStr "a1") (JArr [JStr "rock"])
           [{| ref_name := JStr "Ann"; ref_id := JStr "a1"; ref_track := JStr "One" |};
            {| ref_name := JStr "Bob"; ref_id := JStr "a2"; ref_track := JStr "Mid" |};
            {| ref_name := JStr "Ann"; ref_id := JStr "a1"; ref_track := JStr "Two" |}]
           [] _
           {| ref_name := JStr "Ann"; ref_id := JStr "a1"; ref_track := JStr "One" |}
           eq_refl (or_introl eq_refl) eq_refl).
Defined.

(** ** Search responses without playlists *)

Lemma raw_items_missing (fields : list (string * json)) :
  Py.lookup "playlists" fields = None
  \/ (exists inner,
        Py.lookup "playlists" fields = Some (JObj inner)
        /\ Py.lookup "items" inner = None) ->
  raw_items (JObj fields) = Continue.
Proof.
  unfold raw_items, step_bind, try, continue_if. cbn [Py.contains Py.getitem].
  intros [N | (inner & P & N)].
  - now rewrite N.
  - rewrite P. cbn [negb Py.contains]. now rewrite N.
Qed.

Section NoPlaylists.

Context {World : Type} {requests : Requests World}.

(** Every search is answered with a JSON object that has no ["playlists"]
    field, or whose ["playlists"] object has no ["items"] field. *)
Hypothesis nothing_found :
  forall q limit w0, exists r w' fields,
    get_search q limit w0 = (Some r, w')
    /\ raise_for_status r = Some tt
    /\ json_body r = Some (JObj fields)
    /\ (Py.lookup "playlists" fields = None
        \/ exists inner,
            Py.lookup "playlists" fields = Some (JObj inner)
            /\ Py.lookup "items" inner = None).

Lemma search_passes_nothing (limit min_tracks min_followers : Z)
      (excluded qs : list string) (st : search_state World) :
  exists st',
    for_each (search_pass limit min_tracks min_followers excluded) qs st = Normal st'
    /\ valid_playlists st' = valid_playlists st
    /\ trace st' = (trace st ++ map Search qs)%list.
Proof.
  revert st. induction qs as [|q qs IH]; intro st; cbn [for_each map].
  - exists st. now rewrite app_nil_r.
  - unfold search_pass at 1.
    destruct (nothing_found q limit (world st)) as (r & w' & fields & -> & S & B & M).
    rewrite S, B, (raw_items_missing fields M).
    destruct (IH {| valid_playlists := valid_playlists st;
                    seen_playlist_ids := seen_playlist_ids st;
                    world := w';
                    trace := trace st ++ [Search q] |})
      as (st' & L & V & T).
    exists st'. rewrite L, V, T. cbn [valid_playlists trace].
    rewrite <- app_assoc. repeat split.
Qed.

(** A search response without the ["playlists"] field, or without
    ["items"] in it, is not an error: the variant is skipped.  When all
    four responses are like that, [search_playlists] returns the empty
    list after its four searches, and fetches no details. *)
Theorem responses_without_playlists_give_empty_list
        (query : string) (limit min_tracks min_followers : Z) (w : World) :
  fst (search_playlists query limit min_tracks min_followers w) = Some []
  /\ trace (snd (search_playlists query limit min_tracks min_followers w))
     = map Search (search_variations query).
Proof.
  unfold search_playlists, search_loop.
  destruct (search_passes_nothing limit min_tracks min_followers
              (excluded_terms query) (search_variations query) (initial_state w))
    as (st' & -> & V & T).
  cbn [fst snd]. rewrite V, T. split; reflexivity.
Qed.

End NoPlaylists.

Lemma responses_without_playlists_give_empty_list_witness :
  fst (search_playlists (requests := Fixture.serve Scenario.no_results)
                        "morning" 10 10 50 0%nat) = Some [].
Proof.
  refine (proj1 (responses_without_playlists_give_empty_list
                   (requests := Fixture.serve Scenario.no_results) _
                   "morning" 10 10 50 0%nat)).
  intros q limit w0.
  exists {| status_code := 200; retry_after_header := None;
            json_body := Some (JObj [("message", JStr "nothing")]) |},
         w0, [("message", JStr "nothing")].
  repeat split. now left.
Defined.

Lemma excluded_terms_leave_out_query_witness :
  String.eqb (Str.lower "morning") (Str.lower "Night") = false.
Proof.
  exact (proj2 (proj1 (excluded_terms_leave_out_query "Night") "morning"
                      (or_introl eq_refl))).
Defined.

(** * The order of the output and the batches of a run *)

(** C5: [search_playlists] returns the ids of the accepted playlists
    sorted by follower count in descending order, with a stable sort: the
    ids returned are those of a rearrangement of [valid_playlists] along
    which follower counts never increase, and in which, for every follower
    count, the playlists that have it come in their order of acceptance.
    With accepted followers [50, 200, 10, 200] the call returns the two
    playlists with 200 followers in their order of acceptance, then the
    one with 50, then the one with 10. *)
Theorem search_playlists_ranked_stable
        {World : Type} {requests : Requests World}
        (query : string) (limit min_tracks min_followers : Z) (w : World)
        (ids : list json) :
  fst (search_playlists query limit min_tracks min_followers w) = Some ids ->
  (exists ranked,
      map_exn (fun playlist => Py.getitem playlist "id") ranked = Some ids
      /\ Permutation
           (valid_playlists
              (snd (search_playlists query limit min_tracks min_followers w)))
           ranked
      /\ StronglySorted
           (fun p q => exists m n,
                followers_key p = Some m /\ followers_key q = Some n /\ n <= m)
           ranked
      /\ forall k,
          filter (has_followers k) ranked
          = filter (has_followers k)
              (valid_playlists
                 (snd (search_playlists query limit min_tracks min_followers w))))
  /\ map followers_key
         (valid_playlists
            (snd (search_playlists
                    (requests := Fixture.serve Scenario.four_playlists)
                    "morning" 10 10 10 0%nat)))
     = [Some 50; Some 200; Some 10; Some 200]
  /\ fst (search_playlists (requests := Fixture.serve Scenario.four_playlists)
                           "morning" 10 10 10 0%nat)
     = Some [JStr "b"; JStr "d"; JStr "a"; JStr "c"].
Proof.
  intro H. split; [| split; vm_compute; reflexivity].
  apply search_playlists_some in H.
  unfold rank, exn_bind in H.
  destruct (sorted_by_followers _) as [ranked |] eqn:S; [| discriminate H].
  destruct (map_exn print_line ranked); [| discriminate H].
  unfold sorted_by_followers in S.
  destruct (decorate _) as [d |] eqn:D; [| discriminate S].
  destruct (sorted_by_followers_stable _ d D) as (ranked' & S' & P & Sd & F & _).
  unfold sorted_by_followers in S'. rewrite D in S'.
  injection S as <-. injection S' as <-.
  exists (map snd (sort_desc d)). repeat split; assumption.
Qed.

Lemma search_playlists_ranked_stable_witness :
  exists ranked,
    map_exn (fun playlist => Py.getitem playlist "id") ranked
    = Some [JStr "b"; JStr "d"; JStr "a"; JStr "c"]
    /\ map id_of (filter (has_followers 200) ranked) = [JStr "b"; JStr "d"].
Proof.
  destruct (proj1 (search_playlists_ranked_stable
                     (requests := Fixture.serve Scenario.four_playlists)
                     "morning" 10 10 10 0%nat
                     [JStr "b"; JStr "d"; JStr "a"; JStr "c"] eq_refl))
    as (ranked & M & _ & _ & F).
  exists ranked. split; [exact M |]. rewrite F. reflexivity.
Defined.



(** * The detail fetches of one search pass *)

Section PassFetches.

Context {World : Type} {requests : Requests World}.
Variables (excluded : list string) (min_tracks min_followers : Z).

Lemma process_playlist_trace (st : search_state World) (playlist : json) :
  trace (process_playlist excluded min_tracks min_followers st playlist) = trace st
  \/ exists playlist_id result,
      candidate excluded min_tracks playlist = Next playlist_id
      /\ trace (process_playlist excluded min_tracks min_followers st playlist)
         = (trace st ++ [Details playlist_id result])%list.
Proof.
  unfold process_playlist.
  destruct (candidate excluded min_tracks playlist) as [id | |]; try (now left).
  destruct (negb (Py.hashable id)); [now left |].
  destruct (Py.set_mem id (seen_playlist_ids st)); [now left |].
  destruct (get_playlist_details id (world st)) as [details w'].
  right. exists id, details. split; [reflexivity |].
  destruct details as [d |]; [| reflexivity].
  now destruct (enrich d min_followers).
Qed.

Lemma process_all_trace (items : list json) (st : search_state World) :
  exists fetched,
    trace (fold_left (process_playlist excluded min_tracks min_followers) items st)
    = (trace st ++ fetched)%list
    /\ (List.length fetched <= List.length items)%nat
    /\ forall e,
        In e fetched ->
        exists playlist_id result raw,
          e = Details playlist_id result
          /\ In raw items
          /\ candidate excluded min_tracks raw = Next playlist_id.
Proof.
  revert st. induction items as [|p items IH]; intro st; cbn [fold_left].
  - exists []. rewrite app_nil_r.
    split; [reflexivity | split; [apply Nat.le_0_l | intros e []]].
  - destruct (IH (process_playlist excluded min_tracks min_followers st p))
      as (fetched & T & L & F).
    assert (Later : forall e, In e fetched ->
              exists playlist_id result raw,
                e = Details playlist_id result
                /\ In raw (p :: items)
                /\ candidate excluded min_tracks raw = Next playlist_id).
    { intros e I. destruct (F e I) as (id & result & raw & E & Ir & C).
      exists id, result, raw. repeat split; [exact E | now right | exact C]. }
    destruct (process_playlist_trace st p) as [E | (id & result & C & E)];
      rewrite E in T.
    + exists fetched. split; [exact T | split; [cbn [List.length]; lia | exact Later]].
    + exists (Details id result :: fetched). rewrite <- app_assoc in T.
      split; [exact T | split; [cbn [List.length]; lia |]].
      intros e [<- | I]; [| now apply Later].
      exists id, result, p. repeat split; [now left | exact C].
Qed.

(** In one search pass, details are fetched only for playlists of the
    search response that passed every check made before enrichment, and
    at most once for each playlist of the response: when the search is
    answered with the playlists [items], what the pass adds to the trace
    after its search is at most one detail fetch per item, each for the id
    of an item whose owner is not "spotify", whose name is a string without
    "setlist" and, when it is ASCII, without an excluded term as a word,
    and which has at least [min_tracks] tracks. *)
Theorem pass_fetches_candidates_of_response
        (limit : Z) (st : search_state World) (q : string)
        (r : response) (w' : World) (playlists : json) (items : list json) :
  get_search q limit (world st) = (Some r, w') ->
  raise_for_status r = Some tt ->
  json_body r = Some playlists ->
  raw_items playlists = Next items ->
  exists fetched,
    trace (state_of (search_pass limit min_tracks min_followers excluded st q))
    = (trace st ++ Search q :: fetched)%list
    /\ (List.length fetched <= List.length items)%nat
    /\ forall e,
        In e fetched ->
        exists playlist_id result raw name,
          e = Details playlist_id result
          /\ In raw items
          /\ Py.getitem raw "id" = Some playlist_id
          /\ Py.getitem raw "name" = Some (JStr name)
          /\ (is_ascii name = true -> excluded_term_rule excluded name = false)
          /\ setlist_rule name = false
          /\ owned_by_spotify raw = Some false
          /\ track_count_rule raw min_tracks = Some false.
Proof.
  intros G S B R. unfold search_pass. rewrite G, S, B, R. cbn [state_of].
  destruct (process_all_trace items
              {| valid_playlists := valid_playlists st;
                 seen_playlist_ids := seen_playlist_ids st;
                 world := w';
                 trace := trace st ++ [Search q] |})
    as (fetched & T & L & F).
  exists fetched. cbn [trace] in T. rewrite <- app_assoc in T.
  split; [exact T | split; [exact L |]].
  intros e I. destruct (F e I) as (id & result & raw & E & Ir & C).
  destruct (candidate_passed _ _ _ _ C) as (name & Hn & He & Hs & Ho & Hid & Hr).
  exists id, result, raw, name. repeat split; auto.
Qed.

End PassFetches.

Lemma pass_fetches_candidates_of_response_witness :
  exists fetched,
    trace (state_of
             (search_pass (requests := Fixture.serve (Fixture.one_playlist 10))
                          10 10 50 (excluded_terms "morning")
                          (initial_state 0%nat) "morning playlist"))
    = Search "morning playlist" :: fetched
    /\ (List.length fetched <= 1)%nat.
Proof.
  destruct (pass_fetches_candidates_of_response
              (requests := Fixture.serve (Fixture.one_playlist 10))
              (excluded_terms "morning") 10 50 10 (initial_state 0%nat)
              "morning playlist"
              {| status_code := 200; retry_after_header := None;
                 json_body :=
                   Some (Fixture.search_result
                           [Fixture.playlist "p1" "Sunrise" "ann" 20]) |}
              0%nat
              (Fixture.search_result [Fixture.playlist "p1" "Sunrise" "ann" 20])
              [Fixture.playlist "p1" "Sunrise" "ann" 20]
              eq_refl eq_refl eq_refl eq_refl)
    as (fetched & T & L & _).
  exists fetched. split; [exact T | exact L].
Defined.

(** * Time-of-day terms as words of an ASCII name *)

Lemma is_word_option_lower (o : option ascii) :
  Re.is_word (option_map Str.lower_char o) = Re.is_word o.
Proof. destruct o; simpl; [apply is_word_lower | reflexivity]. Qed.

Lemma last_char_lower (s : string) :
  last_char (Str.lower s) = option_map Str.lower_char (last_char s).
Proof.
  induction s as [|c s IH]; [reflexivity |].
  destruct s as [|d s]; [reflexivity |].
  change (Str.lower (String c (String d s)))
    with (String (Str.lower_char c) (Str.lower (String d s))).
  change (Str.lower (String d s))
    with (String (Str.lower_char d) (Str.lower s)) in *.
  rewrite !last_char_cons. exact IH.
Qed.

Lemma time_period_nonempty (term : string) : In term time_periods -> term <> "".
Proof.
  intros [<- | [<- | [<- | [<- | []]]]]; discriminate.
Qed.

(** A time-of-day term that stands in an ASCII name as a word of its own,
    in whatever case, is found: when what comes before the occurrence ends
    with a non-word character (or is empty) and what comes after it begins
    with one (or is empty), the word-boundary search matches, and the
    excluded-terms rule rejects the name whenever the term is excluded. *)
Theorem time_period_word_is_rejected
        (excluded : list string) (term pre occ post : string) :
  In term time_periods ->
  is_ascii (pre ++ occ ++ post) = true ->
  Str.lower occ = Str.lower term ->
  Re.is_word (last_char pre) = false ->
  Re.is_word (Str.head post) = false ->
  Re.search_word term (pre ++ occ ++ post) = true
  /\ (In term excluded -> excluded_term_rule excluded (pre ++ occ ++ post) = true).
Proof.
  intros T _ E Hpre Hpost.
  apply search_word_at_occurrence; try assumption.
  - rewrite <- is_word_option_lower, <- head_lower, E.
    destruct T as [<- | [<- | [<- | [<- | []]]]]; reflexivity.
  - rewrite <- is_word_option_lower, <- last_char_lower, E.
    destruct T as [<- | [<- | [<- | [<- | []]]]]; reflexivity.
Qed.

Lemma time_period_word_is_rejected_witness :
  excluded_term_rule (excluded_terms "morning") "Late Night-Vibes" = true.
Proof.
  refine (proj2 (time_period_word_is_rejected
                   (excluded_terms "morning") "night" "Late " "Night" "-Vibes"
                   _ eq_refl eq_refl eq_refl eq_refl) _).
  - right. right. right. now left.
  - right. right. now left.
Defined.

(** An ASCII name that is one word (word characters only) is rejected by
    the excluded-terms rule only when it is itself one of the excluded
    terms, up to case: a time-of-day term inside a longer word does not
    count. *)
Theorem single_word_name_rejected_only_as_term (query name : string) :
  is_ascii name = true ->
  all_word name = true ->
  excluded_term_rule (excluded_terms query) name = true ->
  In (Str.lower name) (excluded_terms query).
Proof.
  intros _ A R. unfold excluded_term_rule in R.
  apply existsb_exists in R as (term & I & S).
  pose proof I as I'. apply filter_In in I' as [T _].
  pose proof (search_word_in_single_word term name
                (time_period_nonempty term T) A S) as E.
  rewrite E.
  replace (Str.lower term) with term; [exact I |].
  destruct T as [<- | [<- | [<- | [<- | []]]]]; reflexivity.
Qed.

Lemma single_word_name_rejected_only_as_term_witness :
  In (Str.lower "NIGHT") (excluded_terms "morning").
Proof.
  exact (single_word_name_rejected_only_as_term "morning" "NIGHT"
           eq_refl eq_refl eq_refl).
Defined.
